(** * Dual-screen runner: the simulation core of [src/src/App.tsx]

    The component keeps its whole state in React hooks and changes it from
    four timer callbacks ([updatePlayers], the jump physics, the game loop and
    the crawl time-out), two key handlers, three button handlers and the
    collision effect.  Each of them is embedded below as a function on one
    record, [App], that gathers every [useState] cell together with the two
    pieces of the browser the code talks to: the wall clock behind
    [Date.now()] and the queue of pending [setTimeout] callbacks.

    Line numbers are those of the component at the head of [App.tsx]; the
    file carries an older copy of the component after it, which is not
    modelled.

    Numbers.  JavaScript numbers are embedded as exact rationals [Q], with the
    source's decimal literals read exactly ([0.7] is [7 # 10]); rounding of
    binary floating point is outside this model, except for the flight of a
    jump, which [Binary64] replays on binary64 numbers.  Quantities the
    program only ever uses as integers (lane indices, the score, millisecond
    time stamps, [LANES]) are embedded as [Z] and injected into [Q] where the
    source mixes them with other numbers.

    Scheduling.  React runs a state updater when it next renders; the
    embedding applies every update of a callback at once, in the order the
    callback issues them.  An interval callback is installed anew whenever a
    dependency of its effect changes, so a cell it reads from its closure and
    that is among the dependencies has the value of the latest render, and
    the embedding reads the cell itself.  The game loop also reads
    [bottomObstacles], which is not among its dependencies (line 325): the
    list it sees is the one of the render that last installed it, and the
    embedding takes that list as an input of the tick. *)

From Stdlib Require Import QArith Qround Qminmax ZArith List Lia Lqa Bool Permutation.
From stdpp Require Import gmap strings.
From Corelib Require PrimFloat.
Import ListNotations.

Local Open Scope Q_scope.

(** ** Comparisons of numbers as the booleans JavaScript computes *)

Definition Qltb (a b : Q) : bool := negb (Qle_bool b a).

Notation "a <? b" := (Qltb a b) : Q_scope.
Notation "a >? b" := (Qltb b a) : Q_scope.
Notation "a >=? b" := (Qle_bool b a) : Q_scope.

(** ** Constants (lines 20-31) *)

Definition GAME_WIDTH : Q := 800.
Definition GAME_HEIGHT : Q := 300.
Definition PLAYER_SIZE : Q := 30.
Definition OBSTACLE_WIDTH : Q := 20.
Definition OBSTACLE_HEIGHT : Q := 60.
Definition GROUND_HEIGHT : Q := 50.
Definition MIN_OBSTACLE_DISTANCE : Q := 150.
Definition LANES : Z := 5.
Definition ROAD_WIDTH : Q := GAME_WIDTH * 0.6.
Definition ROAD_OFFSET : Q := (GAME_WIDTH - ROAD_WIDTH) / 2.
Definition LANE_WIDTH : Q := ROAD_WIDTH / inject_Z LANES.
Definition TOP_PLAYER_Y : Q := GAME_HEIGHT - 40.

(** ** Data model (lines 5-18, 35, 64) *)

Module Player.
Record t : Type := mk { x : Q; y : Q }.
End Player.

Inductive ObstacleType : Type :=
| pit | ground_box | air_box | air_branch | normal.

Module Obstacle.
Record t : Type := mk
  { id : Q; x : Q; y : Q; width : Q; height : Q;
    type : ObstacleType; lane : option Z }.
End Obstacle.

Inductive GameState : Type := idle | playing | paused | gameOver.

Inductive BottomPlayerState : Type := running | jumping | crawling.

#[global] Instance GameState_eq_dec : EqDecision GameState.
Proof. solve_decision. Defined.

#[global] Instance BottomPlayerState_eq_dec : EqDecision BottomPlayerState.
Proof. solve_decision. Defined.

#[global] Instance ObstacleType_eq_dec : EqDecision ObstacleType.
Proof. solve_decision. Defined.

(** ** Collision detector (lines 331-357)

    [bottomPlayerState] is the value the effect's closure reads. *)

Definition playerLeft (player : Player.t) : Q := Player.x player - PLAYER_SIZE / 2.
Definition playerRight (player : Player.t) : Q := Player.x player + PLAYER_SIZE / 2.

Definition playerTop (bottomPlayerState : BottomPlayerState) (isBottom : bool)
    (player : Player.t) : Q :=
  if isBottom && bool_decide (bottomPlayerState = crawling)
  then Player.y player
  else Player.y player - PLAYER_SIZE / 2.

Definition playerBottom (bottomPlayerState : BottomPlayerState) (isBottom : bool)
    (player : Player.t) : Q :=
  if isBottom && bool_decide (bottomPlayerState = crawling)
  then Player.y player + PLAYER_SIZE / 3
  else Player.y player + PLAYER_SIZE / 2.

Definition obsLeft (obs : Obstacle.t) : Q := Obstacle.x obs.
Definition obsRight (obs : Obstacle.t) : Q := Obstacle.x obs + Obstacle.width obs.
Definition obsTop (obs : Obstacle.t) : Q := Obstacle.y obs.
Definition obsBottom (obs : Obstacle.t) : Q := Obstacle.y obs + Obstacle.height obs.

Definition checkCollision (bottomPlayerState : BottomPlayerState)
    (player : Player.t) (obstacles : list Obstacle.t) (isBottom : bool) : bool :=
  existsb (fun obs =>
    (playerRight player >? obsLeft obs) &&
    (playerLeft player <? obsRight obs) &&
    (playerBottom bottomPlayerState isBottom player >? obsTop obs) &&
    (playerTop bottomPlayerState isBottom player <? obsBottom obs)) obstacles.

(** ** Component state (lines 35-65)

    One field per [useState] cell, in the order of the source; [stored] is
    the [localStorage] entry ['dualRunnerHighScore'], [clock] the value
    [Date.now()] returns, and [timeouts] the deadlines of the crawl
    callbacks registered by [setTimeout] that have not run yet. *)

Record App : Type := mkApp
  { gameState : GameState;
    score : Z;
    highScore : Z;
    stored : option Z;
    bottomPlayer : Player.t;
    topPlayer : Player.t;
    topPlayerLane : Z;
    bottomObstacles : list Obstacle.t;
    topObstacles : list Obstacle.t;
    gameSpeed : Q;
    topScreenSpeed : Q;
    bottomScreenSpeed : Q;
    lastTopObstacleTime : Z;
    lastBottomObstacleX : Q;
    keysPressed : gset string;
    bottomPlayerState : BottomPlayerState;
    jumpVelocity : Q;
    clock : Z;
    timeouts : list Z }.

(** The state setters of the hooks; each replaces one cell. *)

Definition setGameState (v : GameState) (s : App) : App :=
  mkApp v (score s) (highScore s) (stored s) (bottomPlayer s) (topPlayer s)
    (topPlayerLane s) (bottomObstacles s) (topObstacles s) (gameSpeed s)
    (topScreenSpeed s) (bottomScreenSpeed s) (lastTopObstacleTime s)
    (lastBottomObstacleX s) (keysPressed s) (bottomPlayerState s)
    (jumpVelocity s) (clock s) (timeouts s).

Definition setScore (v : Z) (s : App) : App :=
  mkApp (gameState s) v (highScore s) (stored s) (bottomPlayer s)
    (topPlayer s) (topPlayerLane s) (bottomObstacles s) (topObstacles s)
    (gameSpeed s) (topScreenSpeed s) (bottomScreenSpeed s)
    (lastTopObstacleTime s) (lastBottomObstacleX s) (keysPressed s)
    (bottomPlayerState s) (jumpVelocity s) (clock s) (timeouts s).

Definition setHighScore (v : Z) (s : App) : App :=
  mkApp (gameState s) (score s) v (stored s) (bottomPlayer s) (topPlayer s)
    (topPlayerLane s) (bottomObstacles s) (topObstacles s) (gameSpeed s)
    (topScreenSpeed s) (bottomScreenSpeed s) (lastTopObstacleTime s)
    (lastBottomObstacleX s) (keysPressed s) (bottomPlayerState s)
    (jumpVelocity s) (clock s) (timeouts s).

Definition setStored (v : option Z) (s : App) : App :=
  mkApp (gameState s) (score s) (highScore s) v (bottomPlayer s) (topPlayer s)
    (topPlayerLane s) (bottomObstacles s) (topObstacles s) (gameSpeed s)
    (topScreenSpeed s) (bottomScreenSpeed s) (lastTopObstacleTime s)
    (lastBottomObstacleX s) (keysPressed s) (bottomPlayerState s)
    (jumpVelocity s) (clock s) (timeouts s).

Definition setBottomPlayer (v : Player.t) (s : App) : App :=
  mkApp (gameState s) (score s) (highScore s) (stored s) v (topPlayer s)
    (topPlayerLane s) (bottomObstacles s) (topObstacles s) (gameSpeed s)
    (topScreenSpeed s) (bottomScreenSpeed s) (lastTopObstacleTime s)
    (lastBottomObstacleX s) (keysPressed s) (bottomPlayerState s)
    (jumpVelocity s) (clock s) (timeouts s).

Definition setTopPlayer (v : Player.t) (s : App) : App :=
  mkApp (gameState s) (score s) (highScore s) (stored s) (bottomPlayer s) v
    (topPlayerLane s) (bottomObstacles s) (topObstacles s) (gameSpeed s)
    (topScreenSpeed s) (bottomScreenSpeed s) (lastTopObstacleTime s)
    (lastBottomObstacleX s) (keysPressed s) (bottomPlayerState s)
    (jumpVelocity s) (clock s) (timeouts s).

Definition setTopPlayerLane (v : Z) (s : App) : App :=
  mkApp (gameState s) (score s) (highScore s) (stored s) (bottomPlayer s)
    (topPlayer s) v (bottomObstacles s) (topObstacles s) (gameSpeed s)
    (topScreenSpeed s) (bottomScreenSpeed s) (lastTopObstacleTime s)
    (lastBottomObstacleX s) (keysPressed s) (bottomPlayerState s)
    (jumpVelocity s) (clock s) (timeouts s).

Definition setBottomObstacles (v : list Obstacle.t) (s : App) : App :=
  mkApp (gameState s) (score s) (highScore s) (stored s) (bottomPlayer s)
    (topPlayer s) (topPlayerLane s) v (topObstacles s) (gameSpeed s)
    (topScreenSpeed s) (bottomScreenSpeed s) (lastTopObstacleTime s)
    (lastBottomObstacleX s) (keysPressed s) (bottomPlayerState s)
    (jumpVelocity s) (clock s) (timeouts s).

Definition setTopObstacles (v : list Obstacle.t) (s : App) : App :=
  mkApp (gameState s) (score s) (highScore s) (stored s) (bottomPlayer s)
    (topPlayer s) (topPlayerLane s) (bottomObstacles s) v (gameSpeed s)
    (topScreenSpeed s) (bottomScreenSpeed s) (lastTopObstacleTime s)
    (lastBottomObstacleX s) (keysPressed s) (bottomPlayerState s)
    (jumpVelocity s) (clock s) (timeouts s).

Definition setGameSpeed (v : Q) (s : App) : App :=
  mkApp (gameState s) (score s) (highScore s) (stored s) (bottomPlayer s)
    (topPlayer s) (topPlayerLane s) (bottomObstacles s) (topObstacles s) v
    (topScreenSpeed s) (bottomScreenSpeed s) (lastTopObstacleTime s)
    (lastBottomObstacleX s) (keysPressed s) (bottomPlayerState s)
    (jumpVelocity s) (clock s) (timeouts s).

Definition setTopScreenSpeed (v : Q) (s : App) : App :=
  mkApp (gameState s) (score s) (highScore s) (stored s) (bottomPlayer s)
    (topPlayer s) (topPlayerLane s) (bottomObstacles s) (topObstacles s)
    (gameSpeed s) v (bottomScreenSpeed s) (lastTopObstacleTime s)
    (lastBottomObstacleX s) (keysPressed s) (bottomPlayerState s)
    (jumpVelocity s) (clock s) (timeouts s).

Definition setBottomScreenSpeed (v : Q) (s : App) : App :=
  mkApp (gameState s) (score s) (highScore s) (stored s) (bottomPlayer s)
    (topPlayer s) (topPlayerLane s) (bottomObstacles s) (topObstacles s)
    (gameSpeed s) (topScreenSpeed s) v (lastTopObstacleTime s)
    (lastBottomObstacleX s) (keysPressed s) (bottomPlayerState s)
    (jumpVelocity s) (clock s) (timeouts s).

Definition setLastTopObstacleTime (v : Z) (s : App) : App :=
  mkApp (gameState s) (score s) (highScore s) (stored s) (bottomPlayer s)
    (topPlayer s) (topPlayerLane s) (bottomObstacles s) (topObstacles s)
    (gameSpeed s) (topScreenSpeed s) (bottomScreenSpeed s) v
    (lastBottomObstacleX s) (keysPressed s) (bottomPlayerState s)
    (jumpVelocity s) (clock s) (timeouts s).

Definition setLastBottomObstacleX (v : Q) (s : App) : App :=
  mkApp (gameState s) (score s) (highScore s) (stored s) (bottomPlayer s)
    (topPlayer s) (topPlayerLane s) (bottomObstacles s) (topObstacles s)
    (gameSpeed s) (topScreenSpeed s) (bottomScreenSpeed s)
    (lastTopObstacleTime s) v (keysPressed s) (bottomPlayerState s)
    (jumpVelocity s) (clock s) (timeouts s).

Definition setKeysPressed (v : gset string) (s : App) : App :=
  mkApp (gameState s) (score s) (highScore s) (stored s) (bottomPlayer s)
    (topPlayer s) (topPlayerLane s) (bottomObstacles s) (topObstacles s)
    (gameSpeed s) (topScreenSpeed s) (bottomScreenSpeed s)
    (lastTopObstacleTime s) (lastBottomObstacleX s) v (bottomPlayerState s)
    (jumpVelocity s) (clock s) (timeouts s).

Definition setBottomPlayerState (v : BottomPlayerState) (s : App) : App :=
  mkApp (gameState s) (score s) (highScore s) (stored s) (bottomPlayer s)
    (topPlayer s) (topPlayerLane s) (bottomObstacles s) (topObstacles s)
    (gameSpeed s) (topScreenSpeed s) (bottomScreenSpeed s)
    (lastTopObstacleTime s) (lastBottomObstacleX s) (keysPressed s) v
    (jumpVelocity s) (clock s) (timeouts s).

Definition setJumpVelocity (v : Q) (s : App) : App :=
  mkApp (gameState s) (score s) (highScore s) (stored s) (bottomPlayer s)
    (topPlayer s) (topPlayerLane s) (bottomObstacles s) (topObstacles s)
    (gameSpeed s) (topScreenSpeed s) (bottomScreenSpeed s)
    (lastTopObstacleTime s) (lastBottomObstacleX s) (keysPressed s)
    (bottomPlayerState s) v (clock s) (timeouts s).

Definition setClock (v : Z) (s : App) : App :=
  mkApp (gameState s) (score s) (highScore s) (stored s) (bottomPlayer s)
    (topPlayer s) (topPlayerLane s) (bottomObstacles s) (topObstacles s)
    (gameSpeed s) (topScreenSpeed s) (bottomScreenSpeed s)
    (lastTopObstacleTime s) (lastBottomObstacleX s) (keysPressed s)
    (bottomPlayerState s) (jumpVelocity s) v (timeouts s).

Definition setTimeouts (v : list Z) (s : App) : App :=
  mkApp (gameState s) (score s) (highScore s) (stored s) (bottomPlayer s)
    (topPlayer s) (topPlayerLane s) (bottomObstacles s) (topObstacles s)
    (gameSpeed s) (topScreenSpeed s) (bottomScreenSpeed s)
    (lastTopObstacleTime s) (lastBottomObstacleX s) (keysPressed s)
    (bottomPlayerState s) (jumpVelocity s) (clock s) v.

(** The ordinate of a player standing on the ground, the [groundY] local to
    [updatePlayers] and to the jump physics. *)
Definition groundY : Q := GAME_HEIGHT - GROUND_HEIGHT - PLAYER_SIZE / 2.

(** The state of the first render: every cell at its [useState] initial
    value; [now] is the time of mount and [saved] what [localStorage] held,
    as the integer whose decimal digits the entry is, or nothing when there
    is no entry.  An entry that [parseInt] does not read back as that
    integer (other text, digits beyond 2^53) is outside the model. *)
Definition mount (saved : option Z) (now : Z) : App :=
  {| gameState := idle;
     score := 0;
     highScore := match saved with Some n => n | None => 0%Z end;
     stored := saved;
     bottomPlayer := Player.mk 100 (GAME_HEIGHT - GROUND_HEIGHT - PLAYER_SIZE / 2);
     topPlayer := Player.mk (ROAD_OFFSET + LANE_WIDTH * 2 + LANE_WIDTH / 2) TOP_PLAYER_Y;
     topPlayerLane := 2;
     bottomObstacles := [];
     topObstacles := [];
     gameSpeed := 2;
     topScreenSpeed := 1.5;
     bottomScreenSpeed := 2;
     lastTopObstacleTime := 0;
     lastBottomObstacleX := GAME_WIDTH;
     keysPressed := ∅;
     bottomPlayerState := running;
     jumpVelocity := 0;
     clock := now;
     timeouts := [] |}.

(** ** Keyboard input (lines 68-99)

    The effect that installs the two handlers has no dependencies, so the
    handlers are the closures of the first render: [seen] is the [gameState]
    they captured. *)

Definition has (key : string) (keys : gset string) : bool :=
  bool_decide (key ∈ keys).

Definition handleKeyDown (seen : GameState) (key : string) (s : App) : App :=
  if bool_decide (key = " "%string) then
    if bool_decide (seen = playing) then setGameState paused s
    else if bool_decide (seen = paused) then setGameState playing s
    else s
  else setKeysPressed ({[ key ]} ∪ keysPressed s) s.

Definition handleKeyUp (key : string) (s : App) : App :=
  setKeysPressed (keysPressed s ∖ {[ key ]}) s.

(** ** Player update tick (lines 105-160)

    [keys] and [state] are the values of [keysPressed] and
    [bottomPlayerState] in the closure of the interval callback; the effect
    is installed again whenever one of them changes, so they are the cells'
    current values when the callback runs. *)

Definition laneCenter (newLane : Z) : Q :=
  ROAD_OFFSET + inject_Z newLane * LANE_WIDTH + LANE_WIDTH / 2.

Definition jumpKey (keys : gset string) : bool :=
  has "ArrowUp" keys || has "w" keys || has "W" keys.

Definition crawlKey (keys : gset string) : bool :=
  has "ArrowDown" keys || has "s" keys || has "S" keys.

Definition leftKey (keys : gset string) : bool :=
  has "ArrowLeft" keys || has "a" keys || has "A" keys.

Definition rightKey (keys : gset string) : bool :=
  has "ArrowRight" keys || has "d" keys || has "D" keys.

(** [setTimeout(() => setBottomPlayerState('running'), 600)] *)
Definition setTimeout600 (s : App) : App :=
  setTimeouts (timeouts s ++ [(clock s + 600)%Z]) s.

Definition updateBottomPlayer (keys : gset string) (state : BottomPlayerState)
    (s : App) : App :=
  let prev := bottomPlayer s in
  let groundY := GAME_HEIGHT - GROUND_HEIGHT - PLAYER_SIZE / 2 in
  let newY := Player.y prev in
  let s :=
    if jumpKey keys && bool_decide (state = running)
       && (Player.y prev >=? groundY - 5)
    then setJumpVelocity (-18) (setBottomPlayerState jumping s)
    else s in
  let s :=
    if crawlKey keys && bool_decide (state = running)
    then setTimeout600 (setBottomPlayerState crawling s)
    else s in
  setBottomPlayer (Player.mk (Player.x prev) newY) s.

Definition moveLeft (s : App) : App :=
  let newLane := Z.max 0 (topPlayerLane s - 1) in
  let s := setTopPlayer (Player.mk (laneCenter newLane) (Player.y (topPlayer s))) s in
  let s := setTopPlayerLane newLane s in
  setKeysPressed (keysPressed s ∖ {[ "ArrowLeft"%string ]} ∖ {[ "a"%string ]}
                               ∖ {[ "A"%string ]}) s.

Definition moveRight (s : App) : App :=
  let newLane := Z.min (LANES - 1) (topPlayerLane s + 1) in
  let s := setTopPlayer (Player.mk (laneCenter newLane) (Player.y (topPlayer s))) s in
  let s := setTopPlayerLane newLane s in
  setKeysPressed (keysPressed s ∖ {[ "ArrowRight"%string ]} ∖ {[ "d"%string ]}
                               ∖ {[ "D"%string ]}) s.

Definition updatePlayers (s : App) : App :=
  let keys := keysPressed s in
  let state := bottomPlayerState s in
  let s := updateBottomPlayer keys state s in
  let s := if leftKey keys then moveLeft s else s in
  if rightKey keys then moveRight s else s.

(** ** Jump physics tick (lines 170-185) *)

Definition jumpPhysics (s : App) : App :=
  let prev := bottomPlayer s in
  let groundY := GAME_HEIGHT - GROUND_HEIGHT - PLAYER_SIZE / 2 in
  let newY := Player.y prev + jumpVelocity s in
  if newY >=? groundY then
    setBottomPlayer (Player.mk (Player.x prev) groundY)
      (setJumpVelocity 0 (setBottomPlayerState running s))
  else
    setBottomPlayer (Player.mk (Player.x prev) newY)
      (setJumpVelocity (jumpVelocity s + 0.7) s).

(** ** Obstacle generation (lines 191-254)

    Every call of [Math.random()] is an input of the embedding; a [Chance]
    holds what one game-loop tick takes from outside the [useState] cells.

    The body of [Array.prototype.sort] is the engine's, not the repository's,
    and the comparator [() => 0.5 - Math.random()] is not a consistent
    comparison, so that the language leaves the order of the result to the
    engine.  What it fixes is that the result holds the elements of the
    array, each as often as the array does.  A [Shuffle] is what one such
    call does to an array of lanes. *)

Record Shuffle : Type := mkShuffle
  { sorted : list Z -> list Z;
    sorted_perm : forall lanes, sorted lanes ≡ₚ lanes }.

Record Chance : Type := mkChance
  { bottomGate : Q;      (* [Math.random() < 0.015], bottom stream *)
    bottomId : Q;        (* [id] in [generateObstacle(false)] *)
    bottomRand : Q;      (* [rand] in [generateObstacle(false)] *)
    topGate : Q;         (* [Math.random() < 0.015], top stream *)
    topCount : Q;        (* the draw behind [numObstacles] *)
    topOrder : Shuffle;  (* the call of [sort] with its random comparator *)
    topIds : nat -> Q;   (* the [id] of each obstacle of a batch *)
    seenBottomObstacles : list Obstacle.t
                         (* [bottomObstacles] in the callback's closure *) }.

(** [.sort(() => 0.5 - Math.random())] *)
Definition sortRandom (order : Shuffle) (lanes : list Z) : list Z :=
  sorted order lanes.

(** A call of [sort] that leaves the array as it is, and one that reverses
    it. *)
Definition inOrder : Shuffle :=
  {| sorted := fun lanes => lanes;
     sorted_perm := fun lanes => Permutation_refl lanes |}.

Definition reversed : Shuffle :=
  {| sorted := @rev Z;
     sorted_perm := fun lanes => Permutation_sym (Permutation_rev lanes) |}.

(** [Array.from({ length: LANES }, (_, i) => i)] *)
Definition availableLanes : list Z :=
  map Z.of_nat (seq 0 (Z.to_nat LANES)).

(** [Math.floor(Math.random() * (LANES - 1)) + 1] *)
Definition numObstacles (count : Q) : Z :=
  (Qfloor (count * inject_Z (LANES - 1)) + 1)%Z.

(** [.slice(0, n)]: a negative [n] counts from the end of the array. *)
Definition slice0 {A : Type} (n : Z) (l : list A) : list A :=
  if (n <? 0)%Z then take (Z.to_nat (Z.of_nat (length l) + n)) l
  else take (Z.to_nat n) l.

Definition obstacleLanes (count : Q) (order : Shuffle) : list Z :=
  slice0 (numObstacles count) (sortRandom order availableLanes).

Definition topObstacle (id : Q) (lane : Z) : Obstacle.t :=
  {| Obstacle.id := id;
     Obstacle.x := ROAD_OFFSET + inject_Z lane * LANE_WIDTH + LANE_WIDTH * 0.1;
     Obstacle.y := -30;
     Obstacle.width := LANE_WIDTH * 0.8;
     Obstacle.height := 30;
     Obstacle.type := normal;
     Obstacle.lane := Some lane |}.

(** The type drawn for a bottom obstacle (lines 212-220). *)
Definition obstacleType (rand : Q) : ObstacleType :=
  if rand <? 0.33 then pit
  else if rand <? 0.66 then ground_box
  else air_box.

Definition generateObstacle (id count : Q) (order : Shuffle) (rand : Q)
    (isTop : bool) : Obstacle.t :=
  if isTop then
    let lane := nth 0 (obstacleLanes count order) 0%Z in
    topObstacle id lane
  else
    match obstacleType rand with
    | pit =>
        {| Obstacle.id := id;
           Obstacle.x := GAME_WIDTH;
           Obstacle.y := GAME_HEIGHT - GROUND_HEIGHT;
           Obstacle.width := 50;
           Obstacle.height := 30;
           Obstacle.type := pit;
           Obstacle.lane := None |}
    | ground_box =>
        {| Obstacle.id := id;
           Obstacle.x := GAME_WIDTH;
           Obstacle.y := GAME_HEIGHT - GROUND_HEIGHT - 40;
           Obstacle.width := 35;
           Obstacle.height := 40;
           Obstacle.type := ground_box;
           Obstacle.lane := None |}
    | _ =>
        {| Obstacle.id := id;
           Obstacle.x := GAME_WIDTH;
           Obstacle.y := GAME_HEIGHT - GROUND_HEIGHT - 45;
           Obstacle.width := 60;
           Obstacle.height := 15;
           Obstacle.type := air_branch;
           Obstacle.lane := None |}
    end.

(** ** Game loop tick (lines 260-322)

    The speeds and [lastTopObstacleTime] the callback reads are those of its
    closure; they are dependencies of the effect, so they are the cells'
    values when the tick starts.  The [bottomObstacles] of line 289 is the
    closure's too, and no dependency: it is [seenBottomObstacles]. *)

Definition moveBottomObstacles (speed : Q) (prev : list Obstacle.t)
    : list Obstacle.t :=
  List.filter (fun obs => Obstacle.x obs >? - Obstacle.width obs)
    (map (fun obs =>
            Obstacle.mk (Obstacle.id obs) (Obstacle.x obs - speed)
              (Obstacle.y obs) (Obstacle.width obs) (Obstacle.height obs)
              (Obstacle.type obs) (Obstacle.lane obs)) prev).

Definition moveTopObstacles (speed : Q) (prev : list Obstacle.t)
    : list Obstacle.t :=
  List.filter (fun obs => Obstacle.y obs <? GAME_HEIGHT + Obstacle.height obs)
    (map (fun obs =>
            Obstacle.mk (Obstacle.id obs) (Obstacle.x obs)
              (Obstacle.y obs + speed) (Obstacle.width obs)
              (Obstacle.height obs) (Obstacle.type obs) (Obstacle.lane obs))
       prev).

(** Lines 277-285: the bottom stream's spawn. *)
Definition spawnBottom (c : Chance) (s : App) : App :=
  if bottomGate c <? 0.015 then
    if GAME_WIDTH - lastBottomObstacleX s >? MIN_OBSTACLE_DISTANCE then
      setLastBottomObstacleX GAME_WIDTH
        (setBottomObstacles
           (bottomObstacles s ++
              [generateObstacle (bottomId c) (topCount c) (topOrder c)
                 (bottomRand c) false]) s)
    else s
  else s.

(** Lines 297-309: the obstacles of one top-stream batch. *)
Definition newObstacles (c : Chance) : list Obstacle.t :=
  imap (fun i lane => topObstacle (topIds c i) lane)
    (obstacleLanes (topCount c) (topOrder c)).

(** Line 295: the condition under which the top stream spawns. *)
Definition topSpawns (c : Chance) (currentTime lastTopObstacleTime : Z) : bool :=
  (topGate c <? 0.015) && (currentTime - lastTopObstacleTime >? 2000)%Z.

Definition spawnTop (c : Chance) (lastTopObstacleTime : Z) (s : App) : App :=
  let currentTime := clock s in
  if topSpawns c currentTime lastTopObstacleTime then
    setLastTopObstacleTime currentTime
      (setTopObstacles (topObstacles s ++ newObstacles c) s)
  else s.

Definition gameLoop (c : Chance) (s : App) : App :=
  let closure := s in
  let s := setBottomObstacles
             (moveBottomObstacles (bottomScreenSpeed closure) (bottomObstacles s)) s in
  let s := setTopObstacles
             (moveTopObstacles (topScreenSpeed closure) (topObstacles s)) s in
  let s := spawnBottom c s in
  let s := setLastBottomObstacleX
             (match last (seenBottomObstacles c) with
              | Some lastObstacle => Obstacle.x lastObstacle
              | None => lastBottomObstacleX s - gameSpeed closure
              end) s in
  let s := spawnTop c (lastTopObstacleTime closure) s in
  let s := setScore (score s + 1) s in
  let s := setTopScreenSpeed (Qmin (topScreenSpeed s + 0.0008) 4) s in
  let s := setBottomScreenSpeed (Qmin (bottomScreenSpeed s + 0.0015) 6) s in
  setGameSpeed (Qmin (gameSpeed s + 0.001) 5) s.

(** ** Collision effect (lines 328-366) *)

Definition collisionEffect (s : App) : App :=
  if bool_decide (gameState s = playing) then
    if checkCollision (bottomPlayerState s) (bottomPlayer s) (bottomObstacles s) true
       || checkCollision (bottomPlayerState s) (topPlayer s) (topObstacles s) false
    then
      let s' := setGameState gameOver s in
      if (score s >? highScore s)%Z
      then setStored (Some (score s)) (setHighScore (score s) s')
      else s'
    else s
  else s.

(** ** Buttons (lines 368-402) *)

Definition startGame (s : App) : App :=
  let s := setGameState playing s in
  let s := setScore 0 s in
  let s := setGameSpeed 2 s in
  let s := setTopScreenSpeed 1.5 s in
  let s := setBottomScreenSpeed 2 s in
  let s := setBottomPlayer
             (Player.mk 100 (GAME_HEIGHT - GROUND_HEIGHT - PLAYER_SIZE / 2)) s in
  let s := setTopPlayer
             (Player.mk (ROAD_OFFSET + LANE_WIDTH * 2 + LANE_WIDTH / 2) TOP_PLAYER_Y) s in
  let s := setTopPlayerLane 2 s in
  let s := setBottomObstacles [] s in
  let s := setTopObstacles [] s in
  let s := setBottomPlayerState running s in
  let s := setJumpVelocity 0 s in
  setLastTopObstacleTime 0 s.

Definition pauseGame (s : App) : App :=
  setGameState (if bool_decide (gameState s = paused) then playing else paused) s.

Definition resetGame (s : App) : App :=
  let s := setGameState idle s in
  let s := setScore 0 s in
  let s := setGameSpeed 2 s in
  let s := setTopScreenSpeed 1.5 s in
  let s := setBottomScreenSpeed 2 s in
  let s := setBottomPlayer
             (Player.mk 100 (GAME_HEIGHT - GROUND_HEIGHT - PLAYER_SIZE / 2)) s in
  let s := setTopPlayer
             (Player.mk (ROAD_OFFSET + LANE_WIDTH * 2 + LANE_WIDTH / 2) TOP_PLAYER_Y) s in
  let s := setTopPlayerLane 2 s in
  let s := setBottomObstacles [] s in
  let s := setTopObstacles [] s in
  let s := setBottomPlayerState running s in
  let s := setJumpVelocity 0 s in
  setLastTopObstacleTime 0 s.

(** ** The crawl time-out (line 123)

    The callbacks whose deadline has passed run; each is
    [() => setBottomPlayerState('running')], whatever [gameState] is. *)

Definition isDue (now deadline : Z) : bool := (deadline <=? now)%Z.

Definition runTimeouts (s : App) : App :=
  match List.filter (isDue (clock s)) (timeouts s) with
  | [] => s
  | _ :: _ =>
      setTimeouts (List.filter (fun d => negb (isDue (clock s) d)) (timeouts s))
        (setBottomPlayerState running s)
  end.

(** ** Events

    What can happen to the mounted component.  An interval callback runs
    only while the effect that installs it is active: [updatePlayers] and the
    game loop while [gameState] is [playing], the jump physics while moreover
    [bottomPlayerState] is [jumping].  The collision effect runs after every
    render, that is after every event. *)

Inductive Event : Type :=
| KeyDown (key : string)
| KeyUp (key : string)
| UpdatePlayersTick
| JumpPhysicsTick
| GameLoopTick (c : Chance)
| ClickStart
| ClickPause
| ClickReset
| TimeoutsRun
| Elapse (ms : N).

Definition dispatch (ev : Event) (s : App) : App :=
  match ev with
  | KeyDown key => handleKeyDown idle key s
  | KeyUp key => handleKeyUp key s
  | UpdatePlayersTick =>
      if bool_decide (gameState s = playing) then updatePlayers s else s
  | JumpPhysicsTick =>
      if bool_decide (gameState s = playing)
         && bool_decide (bottomPlayerState s = jumping)
      then jumpPhysics s else s
  | GameLoopTick c =>
      if bool_decide (gameState s = playing) then gameLoop c s else s
  | ClickStart => startGame s
  | ClickPause => pauseGame s
  | ClickReset => resetGame s
  | TimeoutsRun => runTimeouts s
  | Elapse ms => setClock (clock s + Z.of_N ms) s
  end.

Definition step (s : App) (ev : Event) : App := collisionEffect (dispatch ev s).

Definition run (evs : list Event) (s : App) : App := fold_left step evs s.

(** [n] consecutive firings of the jump physics interval. *)
Fixpoint ticks (n : nat) (s : App) : App :=
  match n with
  | O => s
  | S n' => ticks n' (dispatch JumpPhysicsTick s)
  end.

(** A session in which the game was started, the jump key went down and
    the player tick ran once. *)
Definition takeoff : App :=
  run [ClickStart; KeyDown "ArrowUp"; UpdatePlayersTick] (mount None 0).

(** An obstacle once the game loop has scrolled it to abscissa [x]; the
    loop changes nothing else of a bottom obstacle. *)
Definition scrolledTo (x : Q) (obs : Obstacle.t) : Obstacle.t :=
  Obstacle.mk (Obstacle.id obs) x (Obstacle.y obs) (Obstacle.width obs)
    (Obstacle.height obs) (Obstacle.type obs) (Obstacle.lane obs).

(** ** The flight of a jump and the speeds on binary64 numbers

    The same physics tick on the numbers JavaScript computes with, the
    kernel's IEEE 754 binary64 floats, restricted to the three cells the
    tick reads and writes: [y], [jumpVelocity] and whether the state is
    [jumping] ([inAir]).  It serves to check that rounding does not change the
    number of ticks a jump takes.  The speed updates of the game loop follow,
    on the same numbers: their sums are rounded at every tick, so the tick
    at which a speed reaches its cap is read off this replay and not off the
    exact sums. *)

Module Binary64.
Import PrimFloat.
#[local] Set Warnings "-inexact-float".
#[local] Open Scope float_scope.

Definition groundY : float := 300 - 50 - 30 / 2.

Definition jumpPhysics (st : float * float * bool) : float * float * bool :=
  let '(y, jumpVelocity, inAir) := st in
  if inAir then
    let newY := y + jumpVelocity in
    if groundY <=? newY then (groundY, 0, false)
    else (newY, jumpVelocity + 0.7, true)
  else st.

Fixpoint ticks (n : nat) (st : float * float * bool) : float * float * bool :=
  match n with
  | O => st
  | S n' => ticks n' (jumpPhysics st)
  end.

Definition takeoff : float * float * bool := (groundY, -18, true).

(** [Math.min] of two numbers. *)
Definition mathMin (a b : float) : float :=
  if is_nan a then nan
  else if is_nan b then nan
  else if a <? b then a
  else if b <? a then b
  else if get_sign a then a else b.

(** The three speeds, and what one game-loop tick makes of them
    (lines 319-321). *)
Record Speeds : Type := mkSpeeds
  { topScreenSpeed : float; bottomScreenSpeed : float; gameSpeed : float }.

Definition gameLoop (v : Speeds) : Speeds :=
  {| topScreenSpeed := mathMin (topScreenSpeed v + 0.0008) 4;
     bottomScreenSpeed := mathMin (bottomScreenSpeed v + 0.0015) 6;
     gameSpeed := mathMin (gameSpeed v + 0.001) 5 |}.

(** The speeds [startGame] and [resetGame] write (lines 371-373, 391-393),
    which are also the initial ones (lines 52-54). *)
Definition startGame : Speeds :=
  {| topScreenSpeed := 1.5; bottomScreenSpeed := 2; gameSpeed := 2 |}.

(** The speeds [n] game-loop ticks into a game. *)
Fixpoint loops (n : nat) : Speeds :=
  match n with
  | O => startGame
  | S n' => gameLoop (loops n')
  end.

(** Whether speeds [v], taken as those after [n] ticks, are below their caps
    before tick [top], [bottom] and [base] respectively and at them from
    there on; and whether this holds of [v] and of the speeds of the [k]
    ticks that follow. *)
Definition capsAt (top bottom base n : nat) (v : Speeds) : bool :=
  (if (n <? top)%nat then topScreenSpeed v <? 4
   else topScreenSpeed v =? 4) &&
  (if (n <? bottom)%nat then bottomScreenSpeed v <? 6
   else bottomScreenSpeed v =? 6) &&
  (if (n <? base)%nat then gameSpeed v <? 5
   else gameSpeed v =? 5).

Fixpoint capsFrom (top bottom base k n : nat) (v : Speeds) : bool :=
  capsAt top bottom base n v &&
  match k with
  | O => true
  | S k' => capsFrom top bottom base k' (S n) (gameLoop v)
  end.

End Binary64.

(** ** Vocabulary of the statements *)

(** The four comparisons of one obstacle against the player's hitbox. *)
Definition overlaps (st : BottomPlayerState) (isBottom : bool)
    (player : Player.t) (obs : Obstacle.t) : Prop :=
  playerRight player > obsLeft obs /\
  playerLeft player < obsRight obs /\
  playerBottom st isBottom player > obsTop obs /\
  playerTop st isBottom player < obsBottom obs.

(** The two boxes share an edge coordinate: one span ends where the other
    starts, on either axis. *)
Definition touches (st : BottomPlayerState) (isBottom : bool)
    (player : Player.t) (obs : Obstacle.t) : Prop :=
  playerRight player == obsLeft obs \/
  playerLeft player == obsRight obs \/
  playerBottom st isBottom player == obsTop obs \/
  playerTop st isBottom player == obsBottom obs.

(** What the jump physics reads and writes. *)
Definition flight (s : App) : GameState * BottomPlayerState * Q * Q :=
  (gameState s, bottomPlayerState s, Player.y (bottomPlayer s), jumpVelocity s).

(** The player of the bottom screen standing on the ground. *)
Definition grounded : Player.t := Player.mk 100 groundY.

#[global] Instance Q_eq_dec : EqDecision Q.
Proof. solve_decision. Defined.

(** One physics tick taken in the air: the player is jumping, the tick adds
    the velocity to [y] and 0.7 to the velocity, and [y] stays above the
    ground line. *)
Definition airborneStep (s : App) : bool :=
  let s' := dispatch JumpPhysicsTick s in
  bool_decide (bottomPlayerState s = jumping) &&
  bool_decide (Player.y (bottomPlayer s') =
               Player.y (bottomPlayer s) + jumpVelocity s) &&
  bool_decide (jumpVelocity s' = jumpVelocity s + 0.7) &&
  (Player.y (bottomPlayer s') <? groundY).

(** The next [n] physics ticks are all taken in the air. *)
Fixpoint airborne (n : nat) (s : App) : bool :=
  match n with
  | O => true
  | S n' => airborneStep s && airborne n' (dispatch JumpPhysicsTick s)
  end.

(** The top player stands in a lane of the road, at the lane's centre. *)
Definition inLane (s : App) : Prop :=
  (0 <= topPlayerLane s <= LANES - 1)%Z /\
  Player.x (topPlayer s) = laneCenter (topPlayerLane s).

(** The coordinates no operation is meant to change. *)
Definition fixedAxes (s : App) : Prop :=
  Player.x (bottomPlayer s) = 100 /\ Player.y (topPlayer s) = TOP_PLAYER_Y.

(** Draws with which a game-loop tick spawns nothing, for a callback that
    saw an empty bottom stream when it was installed. *)
Definition quiet : Chance :=
  {| bottomGate := 0.5; bottomId := 0; bottomRand := 0; topGate := 0.5;
     topCount := 0; topOrder := inOrder; topIds := fun _ => 0;
     seenBottomObstacles := [] |}.

(** A session one game-loop tick after its start. *)
Definition stale : App :=
  run [ClickStart; GameLoopTick quiet] (mount None 0).

(** The type draw cut into three ranges of equal length. *)
Definition equalThirds : Prop :=
  forall rand : Q, 0 <= rand < 1 ->
    (obstacleType rand = pit <-> rand < 1 # 3) /\
    (obstacleType rand = ground_box <-> 1 # 3 <= rand < 2 # 3) /\
    (obstacleType rand = air_box <-> 2 # 3 <= rand).

(** The horizontal band of a lane of the road. *)
Definition laneLeft (lane : Z) : Q := ROAD_OFFSET + inject_Z lane * LANE_WIDTH.
Definition laneRight (lane : Z) : Q :=
  ROAD_OFFSET + inject_Z (lane + 1) * LANE_WIDTH.

(** The test of the collision effect: a hit on either screen. *)
Definition collides (s : App) : bool :=
  checkCollision (bottomPlayerState s) (bottomPlayer s) (bottomObstacles s) true
  || checkCollision (bottomPlayerState s) (topPlayer s) (topObstacles s) false.

(** The stored high score is the one on display. *)
Definition storedMirrors (s : App) : Prop :=
  match stored s with
  | Some n => highScore s = n
  | None => highScore s = 0%Z
  end.

(** An entry of the storage that the program can have written itself: the
    decimal digits of a score.  [parseInt] reads such digits back as the
    same number while it is a safe integer, one up to 2^53 - 1. *)
Definition writtenEntry (saved : option Z) : Prop :=
  match saved with
  | Some n => (0 <= n <= 9007199254740991)%Z
  | None => True
  end.

(** The three interval callbacks. *)
Definition isTick (ev : Event) : bool :=
  match ev with
  | UpdatePlayersTick | JumpPhysicsTick | GameLoopTick _ => true
  | _ => false
  end.

(** A top obstacle once the game loop has moved it down to ordinate [y]. *)
Definition descendedTo (y : Q) (obs : Obstacle.t) : Obstacle.t :=
  Obstacle.mk (Obstacle.id obs) (Obstacle.x obs) y (Obstacle.width obs)
    (Obstacle.height obs) (Obstacle.type obs) (Obstacle.lane obs).

(** A session in which a crawl was started, the game restarted at once and
    a jump begun; 25 physics ticks into the jump the crawl's callback runs. *)
Definition hovering : App :=
  run ([ClickStart; KeyDown "ArrowDown"; UpdatePlayersTick; KeyUp "ArrowDown";
        ClickStart; KeyDown "ArrowUp"; UpdatePlayersTick]
       ++ repeat JumpPhysicsTick 25 ++ [Elapse 600; TimeoutsRun])
    (mount None 0).

(** The three speeds between their initial values and their caps. *)
Definition speedsInRange (s : App) : Prop :=
  1.5 <= topScreenSpeed s <= 4 /\
  2 <= bottomScreenSpeed s <= 6 /\
  2 <= gameSpeed s <= 5.

(** Successive moves of the bottom stream, one per entry of [speeds]: the
    speed of the bottom screen may differ from tick to tick. *)
Fixpoint scrollBottom (speeds : list Q) (obstacles : list Obstacle.t)
    : list Obstacle.t :=
  match speeds with
  | [] => obstacles
  | speed :: rest => scrollBottom rest (moveBottomObstacles speed obstacles)
  end.

(** Successive moves of the top stream, one per entry of [speeds]. *)
Fixpoint scrollTop (speeds : list Q) (obstacles : list Obstacle.t)
    : list Obstacle.t :=
  match speeds with
  | [] => obstacles
  | speed :: rest => scrollTop rest (moveTopObstacles speed obstacles)
  end.

(** The distance covered by moves at the given speeds. *)
Definition distance (speeds : list Q) : Q := fold_right Qplus 0 speeds.

(** What the bottom stream can hold: an obstacle without a lane, of one of
    the three shapes [generateObstacle] builds, whose right edge is right of
    the screen's left edge and whose left edge is not right of the screen. *)
Definition bottomObstacleOk (obs : Obstacle.t) : Prop :=
  Obstacle.lane obs = None /\
  ((Obstacle.type obs = pit /\
    Obstacle.y obs = GAME_HEIGHT - GROUND_HEIGHT /\
    Obstacle.width obs = 50 /\ Obstacle.height obs = 30) \/
   (Obstacle.type obs = ground_box /\
    Obstacle.y obs = GAME_HEIGHT - GROUND_HEIGHT - 40 /\
    Obstacle.width obs = 35 /\ Obstacle.height obs = 40) \/
   (Obstacle.type obs = air_branch /\
    Obstacle.y obs = GAME_HEIGHT - GROUND_HEIGHT - 45 /\
    Obstacle.width obs = 60 /\ Obstacle.height obs = 15)) /\
  - Obstacle.width obs < Obstacle.x obs <= GAME_WIDTH.

(** What the top stream can hold: a [normal] obstacle in a lane of the
    road, with the abscissa and the extent [topObstacle] gives that lane,
    between its starting ordinate and the line where the stream drops it. *)
Definition topObstacleOk (obs : Obstacle.t) : Prop :=
  Obstacle.type obs = normal /\
  (exists lane, (0 <= lane <= LANES - 1)%Z /\
     Obstacle.lane obs = Some lane /\
     Obstacle.x obs = ROAD_OFFSET + inject_Z lane * LANE_WIDTH + LANE_WIDTH * 0.1) /\
  Obstacle.width obs = LANE_WIDTH * 0.8 /\
  Obstacle.height obs = 30 /\
  -30 <= Obstacle.y obs < GAME_HEIGHT + 30.

Definition streamsOk (s : App) : Prop :=
  speedsInRange s /\
  Forall bottomObstacleOk (bottomObstacles s) /\
  Forall topObstacleOk (topObstacles s).

(** Lines 277-279: the condition under which the bottom stream spawns. *)
Definition bottomSpawns (c : Chance) (lastBottomObstacleX : Q) : bool :=
  (bottomGate c <? 0.015)
  && (GAME_WIDTH - lastBottomObstacleX >? MIN_OBSTACLE_DISTANCE).

(** The time that goes by during a list of events, in milliseconds. *)
Definition elapsed (evs : list Event) : Z :=
  fold_right (fun ev ms => match ev with
                           | Elapse d => (Z.of_N d + ms)%Z
                           | _ => ms
                           end) 0%Z evs.

(** An event other than a click on Start or on Reset. *)
Definition sameGame (ev : Event) : Prop :=
  ev <> ClickStart /\ ev <> ClickReset.

(** * Properties *)

(** ** Boolean comparisons *)

Lemma Qltb_lt (a b : Q) : (a <? b) = true <-> a < b.
Proof.
  unfold Qltb. rewrite negb_true_iff.
  split; intros H.
  - apply Qnot_le_lt. intros Hle. apply Qle_bool_iff in Hle. congruence.
  - destruct (Qle_bool b a) eqn:E; [|reflexivity].
    apply Qle_bool_iff in E. exfalso. exact (Qlt_not_le _ _ H E).
Qed.

Lemma Qltb_ge (a b : Q) : (a <? b) = false <-> b <= a.
Proof.
  unfold Qltb. rewrite negb_false_iff. apply Qle_bool_iff.
Qed.

Lemma Qltb_irrefl_eq (a b : Q) : a == b -> (a <? b) = false /\ (b <? a) = false.
Proof.
  intros H. split; apply Qltb_ge; rewrite H; apply Qle_refl.
Qed.

(** ** The collision detector *)

Lemma overlap_test (st : BottomPlayerState) (isBottom : bool)
    (player : Player.t) (obs : Obstacle.t) :
  ((playerRight player >? obsLeft obs) &&
   (playerLeft player <? obsRight obs) &&
   (playerBottom st isBottom player >? obsTop obs) &&
   (playerTop st isBottom player <? obsBottom obs)) = true <->
  overlaps st isBottom player obs.
Proof.
  unfold overlaps. rewrite !andb_true_iff, !Qltb_lt. tauto.
Qed.

Lemma touching_no_collision (st : BottomPlayerState) (isBottom : bool)
    (player : Player.t) (obs : Obstacle.t) :
  touches st isBottom player obs ->
  checkCollision st player [obs] isBottom = false.
Proof.
  intros Ht. unfold checkCollision. simpl. rewrite orb_false_r.
  apply not_true_is_false. rewrite overlap_test.
  intros (H1 & H2 & H3 & H4).
  destruct Ht as [H|[H|[H|H]]]; rewrite H in *;
    eapply Qlt_irrefl; eassumption.
Qed.

(** C1. [checkCollision] answers [true] exactly when some obstacle of the
    list strictly overlaps the player's hitbox on both axes (right > left,
    left < right, bottom > top, top < bottom), and it answers [false] for
    an obstacle whose box only touches the hitbox at an edge. *)
Theorem checkCollision_strict_overlap
    (st : BottomPlayerState) (player : Player.t) (isBottom : bool) :
  (forall obstacles,
      checkCollision st player obstacles isBottom = true <->
      exists obs, In obs obstacles /\ overlaps st isBottom player obs) /\
  (forall obs,
      touches st isBottom player obs ->
      checkCollision st player [obs] isBottom = false).
Proof.
  split.
  - intros obstacles. unfold checkCollision.
    rewrite existsb_exists.
    split; intros [obs [Hin H]]; exists obs; split; trivial;
      now apply overlap_test.
  - intros obs. apply touching_no_collision.
Qed.

(** A player standing on an obstacle's top edge, checked on concrete boxes. *)
Lemma checkCollision_strict_overlap_witness :
  checkCollision running (Player.mk 100 235)
    [Obstacle.mk 0 100 250 50 30 pit None] true = false.
Proof.
  apply (proj2 (checkCollision_strict_overlap running (Player.mk 100 235) true)).
  right. right. left. reflexivity.
Defined.

(** The ground box, by contrast, does hit a player who runs into it. *)
Lemma ground_box_hits_runner (id count : Q) (order : Shuffle) :
  checkCollision running grounded
    [scrolledTo 100 (generateObstacle id count order 0.5 false)] true = true.
Proof. reflexivity. Qed.

(** At [x = 100] the horizontal spans of the player and of either obstacle
    strictly overlap. *)
Lemma spans_overlap_at_100 (id count : Q) (order : Shuffle) (rand : Q) :
  let obs := scrolledTo 100 (generateObstacle id count order rand false) in
  playerRight grounded > obsLeft obs /\ playerLeft grounded < obsRight obs.
Proof.
  cbv zeta. unfold generateObstacle.
  destruct (obstacleType rand); split; reflexivity.
Qed.

(** C2. A pit, and an air branch, never collides with the player running on
    the ground, wherever the obstacle has scrolled to, also where the
    horizontal spans overlap: the pit's top edge (y = 250) only touches the
    hitbox's bottom edge, and the branch's bottom edge (y = 220) only touches
    the hitbox's top edge. *)
Theorem runner_clears_pit_and_branch (id count x : Q) (order : Shuffle) :
  let pitObs := scrolledTo x (generateObstacle id count order 0 false) in
  let branchObs := scrolledTo x (generateObstacle id count order 0.9 false) in
  Obstacle.type pitObs = pit /\
  Obstacle.type branchObs = air_branch /\
  checkCollision running grounded [pitObs] true = false /\
  checkCollision running grounded [branchObs] true = false.
Proof.
  cbv zeta. split; [reflexivity|]. split; [reflexivity|]. split.
  - apply touching_no_collision. right. right. left. reflexivity.
  - apply touching_no_collision. right. right. right. reflexivity.
Qed.

(** ** Jump physics *)

Lemma flight_proj (s s' : App) :
  flight s = flight s' ->
  gameState s = gameState s' /\
  bottomPlayerState s = bottomPlayerState s' /\
  Player.y (bottomPlayer s) = Player.y (bottomPlayer s') /\
  jumpVelocity s = jumpVelocity s'.
Proof.
  unfold flight. intros H. injection H as Hg Hb Hy Hv. auto.
Qed.

Lemma flight_eq (s : App) (g : GameState) (b : BottomPlayerState) (y v : Q) :
  flight s = (g, b, y, v) ->
  gameState s = g /\ bottomPlayerState s = b /\
  Player.y (bottomPlayer s) = y /\ jumpVelocity s = v.
Proof.
  unfold flight. intros H. injection H as Hg Hb Hy Hv. auto.
Qed.

(** What a physics tick does to the flight data depends on nothing else. *)
Lemma flight_tick (s s' : App) :
  flight s = flight s' ->
  flight (dispatch JumpPhysicsTick s) = flight (dispatch JumpPhysicsTick s').
Proof.
  intros H. destruct (flight_proj _ _ H) as (Hg & Hb & Hy & Hv).
  simpl. rewrite Hg, Hb.
  destruct (bool_decide (gameState s' = playing)
            && bool_decide (bottomPlayerState s' = jumping)); [|exact H].
  unfold jumpPhysics. rewrite Hy, Hv.
  destruct (Player.y (bottomPlayer s') + jumpVelocity s'
            >=? GAME_HEIGHT - GROUND_HEIGHT - PLAYER_SIZE / 2);
    unfold flight; simpl; congruence.
Qed.

Lemma flight_ticks (n : nat) : forall s s' : App,
  flight s = flight s' -> flight (ticks n s) = flight (ticks n s').
Proof.
  induction n as [|n IH]; intros s s' H; simpl; [exact H|].
  apply IH, flight_tick, H.
Qed.

Lemma ticks_add (n m : nat) : forall s : App,
  ticks (n + m) s = ticks m (ticks n s).
Proof.
  induction n as [|n IH]; intros s; simpl; [reflexivity|apply IH].
Qed.

Lemma ticks_succ (k : nat) (s : App) :
  ticks (S k) s = dispatch JumpPhysicsTick (ticks k s).
Proof.
  replace (S k) with (k + 1)%nat by lia. rewrite ticks_add. reflexivity.
Qed.

(** On the ground the interval is not installed: ticks change nothing. *)
Lemma ticks_not_jumping (n : nat) (s : App) :
  bottomPlayerState s <> jumping -> ticks n s = s.
Proof.
  intros H. induction n as [|n IH]; simpl; [reflexivity|].
  rewrite (bool_decide_eq_false_2 _ H), andb_false_r. exact IH.
Qed.

(** Lane changes leave the flight data alone. *)
Lemma flight_moveLeft (s : App) : flight (moveLeft s) = flight s.
Proof. reflexivity. Qed.

Lemma flight_moveRight (s : App) : flight (moveRight s) = flight s.
Proof. reflexivity. Qed.

(** The jump key alone, pressed on the ground while running, starts a jump. *)
Lemma updatePlayers_takeoff (s : App) :
  gameState s = playing ->
  bottomPlayerState s = running ->
  Player.y (bottomPlayer s) = groundY ->
  jumpKey (keysPressed s) = true ->
  crawlKey (keysPressed s) = false ->
  flight (updatePlayers s) = (playing, jumping, groundY, -18).
Proof.
  intros Hg Hb Hy Hj Hc.
  unfold updatePlayers.
  assert (flight (updateBottomPlayer (keysPressed s) (bottomPlayerState s) s)
          = (playing, jumping, groundY, -18)) as H.
  { unfold updateBottomPlayer. rewrite Hj, Hc, Hb, Hy.
    change (bool_decide (running = running)) with true.
    change (groundY >=? GAME_HEIGHT - GROUND_HEIGHT - PLAYER_SIZE / 2 - 5)
      with true.
    cbn [andb]. unfold flight. rewrite <- Hg. reflexivity. }
  destruct (leftKey (keysPressed s)), (rightKey (keysPressed s));
    rewrite ?flight_moveRight, ?flight_moveLeft; exact H.
Qed.

Lemma airborneStep_flight (s s' : App) :
  flight s = flight s' -> airborneStep s = airborneStep s'.
Proof.
  intros H. unfold airborneStep.
  destruct (flight_proj _ _ H) as (_ & Hb & Hy & Hv).
  destruct (flight_proj _ _ (flight_tick _ _ H)) as (_ & _ & Hy' & Hv').
  cbv zeta. rewrite Hb, Hy, Hv, Hy', Hv'. reflexivity.
Qed.

Lemma airborne_ticks (n : nat) : forall s : App,
  airborne n s = true ->
  forall k, (k < n)%nat -> airborneStep (ticks k s) = true.
Proof.
  induction n as [|n IH]; intros s H k Hk; [lia|].
  simpl in H. apply andb_true_iff in H. destruct H as [H0 H1].
  destruct k as [|k]; [exact H0|].
  simpl. apply IH; [exact H1|lia].
Qed.

(** The reference jump: 52 ticks in the air, landing on the 53rd. *)
Lemma takeoff_airborne : airborne 52 takeoff = true.
Proof. vm_compute. reflexivity. Qed.

Lemma takeoff_lands :
  bottomPlayerState (ticks 52 takeoff) = jumping /\
  flight (ticks 53 takeoff) = (playing, running, groundY, 0).
Proof. vm_compute. split; reflexivity. Qed.

(** C3. From the ground, running, the jump key alone makes [updatePlayers]
    set the state to jumping with velocity -18.  Each of the next 52
    physics ticks finds the player jumping, adds the velocity to [y], adds
    0.7 to the velocity and leaves the player above the ground line.
    The 53rd tick clamps [y] to the ground level, zeroes the velocity and
    sets the state back to running; later ticks change nothing. *)
Theorem jump_lands_after_53_ticks (s : App) :
  gameState s = playing ->
  bottomPlayerState s = running ->
  Player.y (bottomPlayer s) = groundY ->
  jumpKey (keysPressed s) = true ->
  crawlKey (keysPressed s) = false ->
  let s1 := updatePlayers s in
  (bottomPlayerState s1 = jumping /\ jumpVelocity s1 = -18 /\
   Player.y (bottomPlayer s1) = groundY) /\
  (forall k, (k < 52)%nat ->
     bottomPlayerState (ticks k s1) = jumping /\
     Player.y (bottomPlayer (ticks (S k) s1)) =
       Player.y (bottomPlayer (ticks k s1)) + jumpVelocity (ticks k s1) /\
     jumpVelocity (ticks (S k) s1) = jumpVelocity (ticks k s1) + 0.7 /\
     Player.y (bottomPlayer (ticks (S k) s1)) < groundY) /\
  (bottomPlayerState (ticks 52 s1) = jumping /\
   Player.y (bottomPlayer (ticks 53 s1)) = groundY /\
   jumpVelocity (ticks 53 s1) = 0 /\
   bottomPlayerState (ticks 53 s1) = running) /\
  (forall n, ticks (53 + n) s1 = ticks 53 s1).
Proof.
  intros Hg Hb Hy Hj Hc s1.
  pose proof (updatePlayers_takeoff s Hg Hb Hy Hj Hc) as Hs1. fold s1 in Hs1.
  assert (Hf : flight s1 = flight takeoff)
    by (rewrite Hs1; vm_compute; reflexivity).
  destruct takeoff_lands as [T52 T53].
  destruct (flight_proj _ _ (flight_ticks 52 _ _ Hf)) as (_ & G1 & _ & _).
  pose proof (flight_ticks 53 _ _ Hf) as L. rewrite T53 in L.
  apply flight_eq in L. destruct L as (_ & L1 & L2 & L3).
  apply flight_eq in Hs1. destruct Hs1 as (_ & F1 & F2 & F3).
  split; [|split; [|split]].
  - repeat split; assumption.
  - intros k Hk.
    pose proof (airborne_ticks 52 takeoff takeoff_airborne k Hk) as A.
    rewrite <- (airborneStep_flight _ _ (flight_ticks k _ _ Hf)) in A.
    unfold airborneStep in A. cbv zeta in A.
    rewrite !andb_true_iff, !bool_decide_eq_true, Qltb_lt in A.
    rewrite ticks_succ. tauto.
  - repeat split; [rewrite G1; exact T52|assumption ..].
  - intros n. rewrite ticks_add. apply ticks_not_jumping.
    rewrite L1. discriminate.
Qed.

Lemma jump_lands_after_53_ticks_witness :
  let s1 := updatePlayers (run [ClickStart; KeyDown "ArrowUp"] (mount None 0)) in
  Player.y (bottomPlayer (ticks 53 s1)) = groundY /\
  jumpVelocity (ticks 53 s1) = 0 /\
  bottomPlayerState (ticks 53 s1) = running.
Proof.
  pose proof (jump_lands_after_53_ticks
                (run [ClickStart; KeyDown "ArrowUp"] (mount None 0))) as H.
  destruct H as (_ & _ & (_ & H) & _);
    [vm_compute; reflexivity ..|].
  exact H.
Defined.

(** On binary64 numbers the jump takes the same 53 ticks: after 52 the
    player is still in the air, the 53rd puts it back on the ground line. *)
Lemma binary64_jump_lands_after_53_ticks :
  snd (Binary64.ticks 52 Binary64.takeoff) = true /\
  Binary64.ticks 53 Binary64.takeoff = (Binary64.groundY, PrimFloat.zero, false).
Proof. vm_compute. split; reflexivity. Qed.

(** ** Invariants of a session *)

Lemma run_invariant (P : App -> Prop) :
  (forall s ev, P s -> P (step s ev)) ->
  forall evs s, P s -> P (run evs s).
Proof.
  intros Hstep evs. unfold run.
  induction evs as [|ev evs IH]; intros s Hs; simpl; [exact Hs|].
  apply IH, Hstep, Hs.
Qed.

Lemma run_app (evs evs' : list Event) (s : App) :
  run (evs ++ evs') s = run evs' (run evs s).
Proof. unfold run. apply fold_left_app. Qed.

(** Case analysis on every conditional of the goal. *)
Ltac branches :=
  repeat match goal with
         | |- context [if ?b then _ else _] => destruct b
         | |- context [match ?l with [] => _ | _ :: _ => _ end] => destruct l
         end.

(** The collision effect writes [gameState], [highScore] and [stored] only. *)
Lemma collisionEffect_frame (s : App) :
  let s' := collisionEffect s in
  score s' = score s /\ bottomPlayer s' = bottomPlayer s /\
  topPlayer s' = topPlayer s /\ topPlayerLane s' = topPlayerLane s /\
  keysPressed s' = keysPressed s /\
  bottomPlayerState s' = bottomPlayerState s /\
  jumpVelocity s' = jumpVelocity s /\
  clock s' = clock s /\ timeouts s' = timeouts s /\
  lastBottomObstacleX s' = lastBottomObstacleX s.
Proof.
  cbv zeta. unfold collisionEffect. branches; repeat split.
Qed.

Lemma updateBottomPlayer_frame (keys : gset string) (st : BottomPlayerState)
    (s : App) :
  let s' := updateBottomPlayer keys st s in
  gameState s' = gameState s /\ score s' = score s /\
  Player.x (bottomPlayer s') = Player.x (bottomPlayer s) /\
  Player.y (bottomPlayer s') = Player.y (bottomPlayer s) /\
  topPlayer s' = topPlayer s /\ topPlayerLane s' = topPlayerLane s /\
  keysPressed s' = keysPressed s /\ clock s' = clock s.
Proof.
  cbv zeta. unfold updateBottomPlayer. branches; repeat split.
Qed.

Lemma moveLeft_spec (s : App) :
  let s' := moveLeft s in
  topPlayerLane s' = Z.max 0 (topPlayerLane s - 1) /\
  Player.x (topPlayer s') = laneCenter (topPlayerLane s') /\
  Player.y (topPlayer s') = Player.y (topPlayer s) /\
  bottomPlayer s' = bottomPlayer s /\
  keysPressed s' =
    keysPressed s ∖ {[ "ArrowLeft"%string ]} ∖ {[ "a"%string ]} ∖ {[ "A"%string ]}.
Proof. cbv zeta. repeat split. Qed.

Lemma moveRight_spec (s : App) :
  let s' := moveRight s in
  topPlayerLane s' = Z.min (LANES - 1) (topPlayerLane s + 1) /\
  Player.x (topPlayer s') = laneCenter (topPlayerLane s') /\
  Player.y (topPlayer s') = Player.y (topPlayer s) /\
  bottomPlayer s' = bottomPlayer s /\
  keysPressed s' =
    keysPressed s ∖ {[ "ArrowRight"%string ]} ∖ {[ "d"%string ]} ∖ {[ "D"%string ]}.
Proof. cbv zeta. repeat split. Qed.

Lemma start_lane_center :
  ROAD_OFFSET + LANE_WIDTH * 2 + LANE_WIDTH / 2 = laneCenter 2.
Proof. reflexivity. Qed.

Lemma inLane_moveLeft (s : App) : inLane s -> inLane (moveLeft s).
Proof.
  intros [Hl _]. destruct (moveLeft_spec s) as (E & Ex & _).
  split; [rewrite E; unfold LANES in *; lia|exact Ex].
Qed.

Lemma inLane_moveRight (s : App) : inLane s -> inLane (moveRight s).
Proof.
  intros [Hl _]. destruct (moveRight_spec s) as (E & Ex & _).
  split; [rewrite E; unfold LANES in *; lia|exact Ex].
Qed.

Lemma inLane_updatePlayers (s : App) : inLane s -> inLane (updatePlayers s).
Proof.
  intros H. unfold updatePlayers.
  assert (inLane (updateBottomPlayer (keysPressed s) (bottomPlayerState s) s))
    as H0.
  { destruct (updateBottomPlayer_frame (keysPressed s) (bottomPlayerState s) s)
      as (_ & _ & _ & _ & Ht & El & _).
    unfold inLane. rewrite Ht, El. exact H. }
  destruct (leftKey (keysPressed s)), (rightKey (keysPressed s));
    auto using inLane_moveLeft, inLane_moveRight.
Qed.

Lemma inLane_dispatch (s : App) (ev : Event) :
  inLane s -> inLane (dispatch ev s).
Proof.
  intros H. destruct ev; simpl.
  - unfold handleKeyDown. branches; exact H.
  - exact H.
  - destruct (bool_decide (gameState s = playing));
      [apply inLane_updatePlayers|]; exact H.
  - unfold jumpPhysics. branches; exact H.
  - unfold gameLoop, spawnTop, spawnBottom. branches; exact H.
  - split; [unfold LANES; simpl; lia|exact start_lane_center].
  - exact H.
  - split; [unfold LANES; simpl; lia|exact start_lane_center].
  - unfold runTimeouts. branches; exact H.
  - exact H.
Qed.

Lemma inLane_step (s : App) (ev : Event) : inLane s -> inLane (step s ev).
Proof.
  intros H. apply (inLane_dispatch s ev) in H. unfold step, inLane.
  destruct (collisionEffect_frame (dispatch ev s)) as (_ & _ & Et & El & _).
  rewrite Et, El. exact H.
Qed.

(** ** Lane changes *)

Lemma leftKey_false (keys : gset string) :
  leftKey keys = false <->
  ("ArrowLeft"%string ∉ keys) /\ ("a"%string ∉ keys) /\ ("A"%string ∉ keys).
Proof.
  unfold leftKey, has. rewrite !orb_false_iff, !bool_decide_eq_false. tauto.
Qed.

Lemma rightKey_false (keys : gset string) :
  rightKey keys = false <->
  ("ArrowRight"%string ∉ keys) /\ ("d"%string ∉ keys) /\ ("D"%string ∉ keys).
Proof.
  unfold rightKey, has. rewrite !orb_false_iff, !bool_decide_eq_false. tauto.
Qed.

Lemma updatePlayers_lane (s : App) :
  topPlayerLane (updatePlayers s) =
  let l := if leftKey (keysPressed s)
           then Z.max 0 (topPlayerLane s - 1) else topPlayerLane s in
  if rightKey (keysPressed s) then Z.min (LANES - 1) (l + 1) else l.
Proof.
  unfold updatePlayers.
  destruct (updateBottomPlayer_frame (keysPressed s) (bottomPlayerState s) s)
    as (_ & _ & _ & _ & _ & El & _).
  destruct (leftKey (keysPressed s)), (rightKey (keysPressed s)); cbv zeta;
    rewrite ?(proj1 (moveRight_spec _)), ?(proj1 (moveLeft_spec _)), El;
    reflexivity.
Qed.

Lemma updatePlayers_keys (s : App) :
  keysPressed (updatePlayers s) =
  let keys := if leftKey (keysPressed s)
              then keysPressed s ∖ {[ "ArrowLeft"%string ]} ∖ {[ "a"%string ]}
                                 ∖ {[ "A"%string ]}
              else keysPressed s in
  if rightKey (keysPressed s)
  then keys ∖ {[ "ArrowRight"%string ]} ∖ {[ "d"%string ]} ∖ {[ "D"%string ]}
  else keys.
Proof.
  unfold updatePlayers.
  destruct (updateBottomPlayer_frame (keysPressed s) (bottomPlayerState s) s)
    as (_ & _ & _ & _ & _ & _ & Ek & _).
  destruct (leftKey (keysPressed s)), (rightKey (keysPressed s)); cbv zeta;
    rewrite ?(proj2 (proj2 (proj2 (proj2 (moveRight_spec _))))),
            ?(proj2 (proj2 (proj2 (proj2 (moveLeft_spec _))))), Ek;
    reflexivity.
Qed.

Lemma removed_absent (keys : gset string) (a b c k : string) :
  k = a \/ k = b \/ k = c -> k ∉ keys ∖ {[ a ]} ∖ {[ b ]} ∖ {[ c ]}.
Proof.
  rewrite !elem_of_difference, !elem_of_singleton. tauto.
Qed.

Lemma absent_stays_absent (keys : gset string) (a b c k : string) :
  k ∉ keys -> k ∉ keys ∖ {[ a ]} ∖ {[ b ]} ∖ {[ c ]}.
Proof.
  rewrite !elem_of_difference. tauto.
Qed.

Ltac absent :=
  repeat first [ assumption
               | apply removed_absent; auto; fail
               | apply absent_stays_absent ].

(** After the player tick no lane key is latched any more. *)
Lemma updatePlayers_consumes (s : App) :
  leftKey (keysPressed (updatePlayers s)) = false /\
  rightKey (keysPressed (updatePlayers s)) = false.
Proof.
  rewrite updatePlayers_keys. cbv zeta. split.
  - apply leftKey_false.
    destruct (leftKey (keysPressed s)) eqn:Hl;
      [|apply leftKey_false in Hl; destruct Hl as (? & ? & ?)];
      destruct (rightKey (keysPressed s)); repeat split; absent.
  - apply rightKey_false.
    destruct (rightKey (keysPressed s)) eqn:Hr;
      [|apply rightKey_false in Hr; destruct Hr as (? & ? & ?)];
      destruct (leftKey (keysPressed s)); repeat split; absent.
Qed.

(** C4. In every session the lane index stays within [0, LANES - 1] and the
    top player's [x] is the centre of its lane.  A player tick with a left
    key latched moves one lane down, clamped at 0; with a right key, one
    lane up, clamped at [LANES - 1]; with both, left then right; after a
    move [x] is the centre of the new lane.  The tick removes the lane keys
    from the pressed set, so the next tick, with no key event in between,
    leaves the lane where it is. *)
Theorem lane_changes_are_discrete :
  (forall evs saved now, inLane (run evs (mount saved now))) /\
  (forall s, leftKey (keysPressed s) = true -> rightKey (keysPressed s) = false ->
     topPlayerLane (updatePlayers s) = Z.max 0 (topPlayerLane s - 1)) /\
  (forall s, leftKey (keysPressed s) = false -> rightKey (keysPressed s) = true ->
     topPlayerLane (updatePlayers s) = Z.min (LANES - 1) (topPlayerLane s + 1)) /\
  (forall s, leftKey (keysPressed s) = true -> rightKey (keysPressed s) = true ->
     topPlayerLane (updatePlayers s) =
     Z.min (LANES - 1) (Z.max 0 (topPlayerLane s - 1) + 1)) /\
  (forall s, leftKey (keysPressed s) = false -> rightKey (keysPressed s) = false ->
     topPlayerLane (updatePlayers s) = topPlayerLane s) /\
  (forall s, inLane s -> inLane (updatePlayers s)) /\
  (forall s, leftKey (keysPressed (updatePlayers s)) = false /\
             rightKey (keysPressed (updatePlayers s)) = false) /\
  (forall s, topPlayerLane (updatePlayers (updatePlayers s)) =
             topPlayerLane (updatePlayers s)).
Proof.
  repeat apply conj.
  - intros evs saved now. apply run_invariant; [apply inLane_step|].
    split; [unfold LANES; simpl; lia|exact start_lane_center].
  - intros s Hl Hr. rewrite updatePlayers_lane, Hl, Hr. reflexivity.
  - intros s Hl Hr. rewrite updatePlayers_lane, Hl, Hr. reflexivity.
  - intros s Hl Hr. rewrite updatePlayers_lane, Hl, Hr. reflexivity.
  - intros s Hl Hr. rewrite updatePlayers_lane, Hl, Hr. reflexivity.
  - apply inLane_updatePlayers.
  - apply updatePlayers_consumes.
  - intros s. destruct (updatePlayers_consumes s) as [Hl Hr].
    rewrite (updatePlayers_lane (updatePlayers s)), Hl, Hr. reflexivity.
Qed.

(** The scenario of the specification: from lane 2 a left key moves the
    player to lane 1. *)
Lemma lane_changes_are_discrete_witness :
  topPlayerLane
    (updatePlayers (run [ClickStart; KeyDown "ArrowLeft"] (mount None 0))) =
  Z.max 0
    (topPlayerLane (run [ClickStart; KeyDown "ArrowLeft"] (mount None 0)) - 1).
Proof.
  apply (proj1 (proj2 lane_changes_are_discrete)); vm_compute; reflexivity.
Defined.

(** ** Coordinates that never change *)

Lemma fixedAxes_updatePlayers (s : App) :
  Player.x (bottomPlayer (updatePlayers s)) = Player.x (bottomPlayer s) /\
  Player.y (topPlayer (updatePlayers s)) = Player.y (topPlayer s).
Proof.
  unfold updatePlayers.
  destruct (updateBottomPlayer_frame (keysPressed s) (bottomPlayerState s) s)
    as (_ & _ & Ex & _ & Et & _).
  destruct (leftKey (keysPressed s)), (rightKey (keysPressed s));
    rewrite ?(proj1 (proj2 (proj2 (proj2 (moveRight_spec _))))),
            ?(proj1 (proj2 (proj2 (moveRight_spec _)))),
            ?(proj1 (proj2 (proj2 (proj2 (moveLeft_spec _))))),
            ?(proj1 (proj2 (proj2 (moveLeft_spec _)))), Ex, Et;
    split; reflexivity.
Qed.

Lemma fixedAxes_jumpPhysics (s : App) :
  Player.x (bottomPlayer (jumpPhysics s)) = Player.x (bottomPlayer s) /\
  topPlayer (jumpPhysics s) = topPlayer s /\
  topPlayerLane (jumpPhysics s) = topPlayerLane s.
Proof.
  unfold jumpPhysics. branches; repeat split.
Qed.

Lemma fixedAxes_dispatch (s : App) (ev : Event) :
  fixedAxes s -> fixedAxes (dispatch ev s).
Proof.
  intros H. destruct ev; simpl.
  - unfold handleKeyDown. branches; exact H.
  - exact H.
  - destruct (bool_decide (gameState s = playing)); [|exact H].
    destruct (fixedAxes_updatePlayers s) as [Ex Ey].
    unfold fixedAxes. rewrite Ex, Ey. exact H.
  - destruct (bool_decide (gameState s = playing)
              && bool_decide (bottomPlayerState s = jumping)); [|exact H].
    destruct (fixedAxes_jumpPhysics s) as (Ex & Et & _).
    unfold fixedAxes. rewrite Ex, Et. exact H.
  - unfold gameLoop, spawnTop, spawnBottom. branches; exact H.
  - split; reflexivity.
  - exact H.
  - split; reflexivity.
  - unfold runTimeouts. branches; exact H.
  - exact H.
Qed.

Lemma fixedAxes_step (s : App) (ev : Event) :
  fixedAxes s -> fixedAxes (step s ev).
Proof.
  intros H. apply (fixedAxes_dispatch s ev) in H. unfold step, fixedAxes.
  destruct (collisionEffect_frame (dispatch ev s)) as (_ & Eb & Et & _).
  rewrite Eb, Et. exact H.
Qed.

(** C10. Throughout a session the bottom player's [x] is 100 and the top
    player's [y] is [GAME_HEIGHT - 40]: every event keeps both; the player
    tick and the jump physics leave the bottom player's [x] alone, and the
    player tick, lane changes included, leaves the top player's [y] alone. *)
Theorem fixed_axes_never_change :
  (forall evs saved now, fixedAxes (run evs (mount saved now))) /\
  (forall s ev, fixedAxes s -> fixedAxes (step s ev)) /\
  (forall s, Player.x (bottomPlayer (updatePlayers s)) = Player.x (bottomPlayer s) /\
             Player.y (topPlayer (updatePlayers s)) = Player.y (topPlayer s)) /\
  (forall s, Player.x (bottomPlayer (jumpPhysics s)) = Player.x (bottomPlayer s) /\
             topPlayer (jumpPhysics s) = topPlayer s /\
             topPlayerLane (jumpPhysics s) = topPlayerLane s) /\
  (forall s, bottomPlayer (moveLeft s) = bottomPlayer s /\
             Player.y (topPlayer (moveLeft s)) = Player.y (topPlayer s) /\
             bottomPlayer (moveRight s) = bottomPlayer s /\
             Player.y (topPlayer (moveRight s)) = Player.y (topPlayer s)).
Proof.
  repeat apply conj.
  - intros evs saved now. apply run_invariant; [apply fixedAxes_step|].
    split; reflexivity.
  - apply fixedAxes_step.
  - apply fixedAxes_updatePlayers.
  - apply fixedAxes_jumpPhysics.
  - intros s. repeat split.
Qed.

Lemma fixed_axes_never_change_witness :
  fixedAxes
    (run [ClickStart; KeyDown "ArrowUp"; KeyDown "ArrowLeft"; UpdatePlayersTick;
          JumpPhysicsTick; JumpPhysicsTick] (mount None 0)).
Proof. apply (proj1 fixed_axes_never_change). Defined.

(** ** The score *)

Lemma score_gameLoop (c : Chance) (s : App) :
  score (gameLoop c s) = (score s + 1)%Z.
Proof.
  unfold gameLoop, spawnTop, spawnBottom. branches; reflexivity.
Qed.

Lemma score_dispatch (s : App) (ev : Event) :
  ev <> ClickStart -> ev <> ClickReset ->
  score (dispatch ev s) =
  match ev with
  | GameLoopTick _ =>
      if bool_decide (gameState s = playing) then (score s + 1)%Z else score s
  | _ => score s
  end.
Proof.
  intros Hs Hr. destruct ev; simpl; try congruence.
  - unfold handleKeyDown. branches; reflexivity.
  - destruct (bool_decide (gameState s = playing)); [|reflexivity].
    unfold updatePlayers.
    destruct (updateBottomPlayer_frame (keysPressed s) (bottomPlayerState s) s)
      as (_ & E & _).
    branches; exact E.
  - unfold jumpPhysics. branches; reflexivity.
  - destruct (bool_decide (gameState s = playing));
      [apply score_gameLoop|reflexivity].
  - unfold runTimeouts. branches; reflexivity.
Qed.

Lemma score_step (s : App) (ev : Event) :
  score (step s ev) = score (dispatch ev s).
Proof.
  unfold step. apply (collisionEffect_frame (dispatch ev s)).
Qed.

(** C6. A game-loop tick taken while playing adds exactly 1 to the score;
    in any other state the tick does not run and leaves the whole state as
    it is; no event other than the game-loop tick, start and reset changes
    the score.  Hence, between a start or reset and the next, the score never
    decreases, and it stays put while the state is not playing. *)
Theorem score_counts_game_loop_ticks :
  (forall s c, gameState s = playing ->
     score (step s (GameLoopTick c)) = (score s + 1)%Z) /\
  (forall s c, gameState s <> playing -> step s (GameLoopTick c) = s) /\
  (forall s ev, ev <> ClickStart -> ev <> ClickReset ->
     (forall c, ev <> GameLoopTick c) -> score (step s ev) = score s) /\
  (forall s ev, ev <> ClickStart -> ev <> ClickReset ->
     gameState s <> playing -> score (step s ev) = score s) /\
  (forall evs s, Forall (fun ev => ev <> ClickStart /\ ev <> ClickReset) evs ->
     (score s <= score (run evs s))%Z).
Proof.
  repeat apply conj.
  - intros s c H. rewrite score_step. simpl.
    rewrite (bool_decide_eq_true_2 _ H). apply score_gameLoop.
  - intros s c H. unfold step. simpl.
    rewrite (bool_decide_eq_false_2 _ H). unfold collisionEffect.
    rewrite (bool_decide_eq_false_2 _ H). reflexivity.
  - intros s ev Hs Hr Hg. rewrite score_step, score_dispatch by assumption.
    destruct ev; try reflexivity. destruct (Hg c). reflexivity.
  - intros s ev Hs Hr Hg. rewrite score_step, score_dispatch by assumption.
    destruct ev; try reflexivity.
    rewrite (bool_decide_eq_false_2 _ Hg). reflexivity.
  - intros evs. unfold run.
    induction evs as [|ev evs IH]; intros s H; simpl; [lia|].
    inversion H as [|? ? [Hs Hr] Hrest]; subst.
    specialize (IH (step s ev) Hrest).
    assert (score s <= score (step s ev))%Z; [|lia].
    rewrite score_step, score_dispatch by assumption.
    destruct ev; try lia. destruct (bool_decide (gameState s = playing)); lia.
Qed.

Lemma score_counts_game_loop_ticks_witness :
  score (step (run [ClickStart] (mount None 0)) (GameLoopTick quiet)) =
  (score (run [ClickStart] (mount None 0)) + 1)%Z.
Proof.
  apply (proj1 score_counts_game_loop_ticks). vm_compute. reflexivity.
Defined.

(** ** Start and reset *)

(** What [startGame] and [resetGame] do restore. *)
Lemma restart_restores (s : App) (saved : option Z) (now : Z) :
  let fresh := mount saved now in
  forall s', s' = startGame s \/ s' = resetGame s ->
  score s' = score fresh /\
  bottomPlayer s' = bottomPlayer fresh /\
  topPlayer s' = topPlayer fresh /\
  topPlayerLane s' = topPlayerLane fresh /\
  bottomObstacles s' = bottomObstacles fresh /\
  topObstacles s' = topObstacles fresh /\
  gameSpeed s' = gameSpeed fresh /\
  topScreenSpeed s' = topScreenSpeed fresh /\
  bottomScreenSpeed s' = bottomScreenSpeed fresh /\
  bottomPlayerState s' = bottomPlayerState fresh /\
  jumpVelocity s' = jumpVelocity fresh /\
  lastTopObstacleTime s' = lastTopObstacleTime fresh.
Proof.
  intros fresh s' [E|E]; subst s'; repeat split.
Qed.

Lemma restart_lastBottomObstacleX (s : App) :
  lastBottomObstacleX (startGame s) = lastBottomObstacleX s /\
  lastBottomObstacleX (resetGame s) = lastBottomObstacleX s.
Proof. split; reflexivity. Qed.

(** C8.  [startGame] and [resetGame] leave [lastBottomObstacleX] as they
    find it.  One game-loop tick after a start the cell holds 798, and it
    still holds 798 after a start or a reset, while its initial value is
    [GAME_WIDTH] = 800. *)
Theorem restart_keeps_last_bottom_spawn :
  (forall s, lastBottomObstacleX (startGame s) = lastBottomObstacleX s /\
             lastBottomObstacleX (resetGame s) = lastBottomObstacleX s) /\
  lastBottomObstacleX (mount None 0) = 800 /\
  lastBottomObstacleX stale = 798 /\
  lastBottomObstacleX (startGame stale) = 798 /\
  lastBottomObstacleX (resetGame stale) = 798.
Proof.
  split; [apply restart_lastBottomObstacleX|].
  vm_compute. repeat split.
Qed.

(** ** The crawl time-out *)

Lemma crawl_updateBottomPlayer (keys : gset string) (s : App) :
  crawlKey keys = true ->
  let s' := updateBottomPlayer keys running s in
  bottomPlayerState s' = crawling /\
  timeouts s' = timeouts s ++ [(clock s + 600)%Z].
Proof.
  intros Hc. cbv zeta. unfold updateBottomPlayer. rewrite Hc.
  change (bool_decide (running = running)) with true. cbn [andb].
  branches; split; reflexivity.
Qed.

Lemma crawl_updatePlayers (s : App) :
  bottomPlayerState s = running ->
  crawlKey (keysPressed s) = true ->
  bottomPlayerState (updatePlayers s) = crawling /\
  timeouts (updatePlayers s) = timeouts s ++ [(clock s + 600)%Z].
Proof.
  intros Hb Hc. unfold updatePlayers. rewrite Hb.
  destruct (crawl_updateBottomPlayer (keysPressed s) s Hc) as [E1 E2].
  destruct (leftKey (keysPressed s)), (rightKey (keysPressed s));
    split; first [exact E1 | exact E2].
Qed.

(** The player tick registers time-outs and removes none. *)
Lemma timeouts_updatePlayers (s : App) (d : Z) :
  In d (timeouts s) -> In d (timeouts (updatePlayers s)).
Proof.
  intros H. unfold updatePlayers.
  assert (In d (timeouts
            (updateBottomPlayer (keysPressed s) (bottomPlayerState s) s))) as H0.
  { unfold updateBottomPlayer, setTimeout600. branches; simpl;
      rewrite ?in_app_iff; auto. }
  destruct (leftKey (keysPressed s)), (rightKey (keysPressed s)); exact H0.
Qed.

Lemma timeouts_dispatch (s : App) (ev : Event) (d : Z) :
  ev <> TimeoutsRun -> In d (timeouts s) -> In d (timeouts (dispatch ev s)).
Proof.
  intros Hev H. destruct ev; simpl; try congruence.
  - unfold handleKeyDown. branches; exact H.
  - destruct (bool_decide (gameState s = playing));
      [apply timeouts_updatePlayers|]; exact H.
  - unfold jumpPhysics. branches; exact H.
  - unfold gameLoop, spawnTop, spawnBottom. branches; exact H.
Qed.

Lemma timeouts_step (s : App) (ev : Event) :
  timeouts (step s ev) = timeouts (dispatch ev s) /\
  bottomPlayerState (step s ev) = bottomPlayerState (dispatch ev s) /\
  clock (step s ev) = clock (dispatch ev s).
Proof.
  unfold step.
  destruct (collisionEffect_frame (dispatch ev s))
    as (_ & _ & _ & _ & _ & Eb & _ & Ec & Et & _).
  auto.
Qed.

Lemma timeouts_run (evs : list Event) : forall (s : App) (d : Z),
  Forall (fun ev => ev <> TimeoutsRun) evs ->
  In d (timeouts s) -> In d (timeouts (run evs s)).
Proof.
  unfold run. induction evs as [|ev evs IH]; intros s d Hevs H; simpl; [exact H|].
  inversion Hevs as [|? ? Hev Hrest]; subst.
  apply IH; [exact Hrest|].
  rewrite (proj1 (timeouts_step s ev)). apply timeouts_dispatch; assumption.
Qed.

(** A callback whose deadline has passed runs, whatever [gameState] is. *)
Lemma runTimeouts_due (s : App) (d : Z) :
  In d (timeouts s) -> (d <= clock s)%Z ->
  bottomPlayerState (runTimeouts s) = running /\
  ~ In d (timeouts (runTimeouts s)).
Proof.
  intros Hin Hd. unfold runTimeouts.
  assert (In d (List.filter (isDue (clock s)) (timeouts s))) as Hf
    by (apply filter_In; split; [exact Hin|apply Z.leb_le, Hd]).
  destruct (List.filter (isDue (clock s)) (timeouts s)); [destruct Hf|].
  split; [reflexivity|]. simpl. rewrite filter_In. intros [_ Hn].
  apply negb_true_iff in Hn. apply Z.leb_gt in Hn. lia.
Qed.

(** No callback runs before its deadline. *)
Lemma runTimeouts_early (s : App) :
  (forall d, In d (timeouts s) -> (clock s < d)%Z) -> runTimeouts s = s.
Proof.
  intros H. unfold runTimeouts.
  destruct (List.filter (isDue (clock s)) (timeouts s)) as [|d l] eqn:E;
    [reflexivity|].
  assert (In d (List.filter (isDue (clock s)) (timeouts s))) as Hf
    by (rewrite E; left; reflexivity).
  apply filter_In in Hf. destruct Hf as [Hin Hd].
  apply Z.leb_le in Hd. specialize (H d Hin). lia.
Qed.

(** C9. A player tick taken while running with a crawl key latched sets the
    state to crawling and registers a callback due 600 ms later.  No event
    removes a pending callback: not a key, not a tick, not pause, start or
    reset, not the collision effect ending the game.  Once the clock has
    reached the deadline the callback runs and sets the state to running,
    whatever [gameState] is by then; before any deadline has passed, running
    the time-outs changes nothing. *)
Theorem crawl_reverts_after_timeout :
  (forall s, gameState s = playing -> bottomPlayerState s = running ->
     crawlKey (keysPressed s) = true ->
     bottomPlayerState (step s UpdatePlayersTick) = crawling /\
     timeouts (step s UpdatePlayersTick) = timeouts s ++ [(clock s + 600)%Z]) /\
  (forall s ev d, ev <> TimeoutsRun ->
     In d (timeouts s) -> In d (timeouts (step s ev))) /\
  (forall s d, In d (timeouts s) -> (d <= clock s)%Z ->
     bottomPlayerState (step s TimeoutsRun) = running /\
     ~ In d (timeouts (step s TimeoutsRun))) /\
  (forall s, (forall d, In d (timeouts s) -> (clock s < d)%Z) ->
     bottomPlayerState (step s TimeoutsRun) = bottomPlayerState s) /\
  (forall s evs, gameState s = playing -> bottomPlayerState s = running ->
     crawlKey (keysPressed s) = true ->
     Forall (fun ev => ev <> TimeoutsRun) evs ->
     let s1 := run (UpdatePlayersTick :: evs) s in
     In (clock s + 600)%Z (timeouts s1) /\
     ((clock s + 600 <= clock s1)%Z ->
      bottomPlayerState (step s1 TimeoutsRun) = running)).
Proof.
  assert (forall s, gameState s = playing -> bottomPlayerState s = running ->
     crawlKey (keysPressed s) = true ->
     bottomPlayerState (step s UpdatePlayersTick) = crawling /\
     timeouts (step s UpdatePlayersTick) = timeouts s ++ [(clock s + 600)%Z])
    as Hstart.
  { intros s Hg Hb Hc.
    destruct (timeouts_step s UpdatePlayersTick) as (Et & Eb & _).
    rewrite Et, Eb. simpl. rewrite (bool_decide_eq_true_2 _ Hg).
    apply crawl_updatePlayers; assumption. }
  assert (forall s d, In d (timeouts s) -> (d <= clock s)%Z ->
     bottomPlayerState (step s TimeoutsRun) = running /\
     ~ In d (timeouts (step s TimeoutsRun))) as Hdue.
  { intros s d Hin Hd.
    destruct (timeouts_step s TimeoutsRun) as (Et & Eb & _).
    rewrite Et, Eb. simpl. apply runTimeouts_due; assumption. }
  repeat apply conj.
  - exact Hstart.
  - intros s ev d Hev Hin. rewrite (proj1 (timeouts_step s ev)).
    apply timeouts_dispatch; assumption.
  - exact Hdue.
  - intros s H. rewrite (proj1 (proj2 (timeouts_step s TimeoutsRun))). simpl.
    rewrite runTimeouts_early by exact H. reflexivity.
  - intros s evs Hg Hb Hc Hevs. cbv zeta.
    assert (In (clock s + 600)%Z
              (timeouts (run (UpdatePlayersTick :: evs) s))) as Hin.
    { change (run (UpdatePlayersTick :: evs) s)
        with (run evs (step s UpdatePlayersTick)).
      apply timeouts_run; [exact Hevs|].
      rewrite (proj2 (Hstart s Hg Hb Hc)), in_app_iff. right. left. reflexivity. }
    split; [exact Hin|]. intros Hclock.
    apply (Hdue _ _ Hin Hclock).
Qed.

(** A crawl started, the game paused, 600 ms gone by: the callback still
    sets the state to running. *)
Lemma crawl_reverts_after_timeout_witness :
  let s := run [ClickStart; KeyDown "ArrowDown"] (mount None 0) in
  let s1 := run [UpdatePlayersTick; ClickPause; Elapse 600] s in
  gameState s1 = paused /\ bottomPlayerState s1 = crawling /\
  bottomPlayerState (step s1 TimeoutsRun) = running.
Proof.
  cbv zeta. split; [vm_compute; reflexivity|].
  split; [vm_compute; reflexivity|].
  apply (proj2 (proj2 (proj2 (proj2 crawl_reverts_after_timeout)))
           (run [ClickStart; KeyDown "ArrowDown"] (mount None 0))
           [ClickPause; Elapse 600]).
  - vm_compute. reflexivity.
  - vm_compute. reflexivity.
  - vm_compute. reflexivity.
  - repeat constructor; discriminate.
  - vm_compute. discriminate.
Defined.

(** ** The type of a bottom obstacle *)

Lemma obstacleType_pit (rand : Q) : obstacleType rand = pit <-> rand < 0.33.
Proof.
  unfold obstacleType. rewrite <- Qltb_lt.
  destruct (rand <? 0.33); [tauto|].
  destruct (rand <? 0.66); split; discriminate.
Qed.

Lemma obstacleType_ground_box (rand : Q) :
  obstacleType rand = ground_box <-> 0.33 <= rand < 0.66.
Proof.
  unfold obstacleType.
  destruct (rand <? 0.33) eqn:E1.
  - apply Qltb_lt in E1. split; [discriminate|].
    intros [H _]. exfalso. exact (Qlt_not_le _ _ E1 H).
  - apply Qltb_ge in E1. destruct (rand <? 0.66) eqn:E2.
    + apply Qltb_lt in E2. tauto.
    + apply Qltb_ge in E2. split; [discriminate|].
      intros [_ H]. exfalso. exact (Qlt_not_le _ _ H E2).
Qed.

Lemma obstacleType_air_box (rand : Q) :
  obstacleType rand = air_box <-> 0.66 <= rand.
Proof.
  unfold obstacleType.
  destruct (rand <? 0.33) eqn:E1.
  - apply Qltb_lt in E1. split; [discriminate|].
    intros H. exfalso. apply (Qlt_not_le _ _ E1).
    apply Qle_trans with (2 := H). discriminate.
  - destruct (rand <? 0.66) eqn:E2.
    + apply Qltb_lt in E2. split; [discriminate|].
      intros H. exfalso. exact (Qlt_not_le _ _ E2 H).
    + apply Qltb_ge in E2. tauto.
Qed.

(** The draw 0.33 lies in the first third and yields a ground box. *)
Lemma thirds_are_not_equal : ~ equalThirds.
Proof.
  intros H.
  assert (0 <= 0.33 < 1) as Hr
    by (split; [intros Hc; discriminate Hc|reflexivity]).
  destruct (H 0.33 Hr) as (Hpit & _).
  assert (obstacleType 0.33 = pit) as E by (apply (proj2 Hpit); reflexivity).
  discriminate E.
Qed.

(** C7. The type of a bottom obstacle is read off one draw cut at 0.33 and
    0.66: below 0.33 a pit, from 0.33 to below 0.66 a ground box, from 0.66
    on an air branch.  Within [0, 1) the three ranges have lengths 0.33,
    0.33 and 0.34. *)
Theorem obstacleType_thresholds :
  (forall rand, obstacleType rand = pit <-> rand < 0.33) /\
  (forall rand, obstacleType rand = ground_box <-> 0.33 <= rand < 0.66) /\
  (forall rand, obstacleType rand = air_box <-> 0.66 <= rand) /\
  (forall id count order rand,
     Obstacle.type (generateObstacle id count order rand false) =
     match obstacleType rand with
     | pit => pit
     | ground_box => ground_box
     | _ => air_branch
     end) /\
  (0.33 - 0 == 33 # 100 /\ 0.66 - 0.33 == 33 # 100 /\ 1 - 0.66 == 34 # 100).
Proof.
  repeat apply conj; try reflexivity.
  - apply obstacleType_pit.
  - apply obstacleType_ground_box.
  - apply obstacleType_air_box.
  - intros id count order rand. unfold generateObstacle.
    destruct (obstacleType rand); reflexivity.
Qed.

(** ** The top stream's batches *)

Lemma sortRandom_perm (order : Shuffle) (lanes : list Z) :
  sortRandom order lanes ≡ₚ lanes.
Proof. unfold sortRandom. apply sorted_perm. Qed.

Lemma availableLanes_eq : availableLanes = [0; 1; 2; 3; 4]%Z.
Proof. reflexivity. Qed.

Lemma numObstacles_range (count : Q) :
  0 <= count < 1 -> (1 <= numObstacles count <= LANES - 1)%Z.
Proof.
  intros [H0 H1]. unfold numObstacles, LANES.
  change (inject_Z (5 - 1)) with 4.
  assert (0 <= count * 4) as Hlo by lra.
  assert (count * 4 < 4) as Hhi by lra.
  apply Qfloor_resp_le in Hlo. change (Qfloor 0) with 0%Z in Hlo.
  assert (Qfloor (count * 4) < 4)%Z as Hfl.
  { rewrite Zlt_Qlt. apply Qle_lt_trans with (2 := Hhi). apply Qfloor_le. }
  lia.
Qed.

Lemma LANE_WIDTH_value : LANE_WIDTH == 96.
Proof. reflexivity. Qed.

Lemma ROAD_OFFSET_value : ROAD_OFFSET == 160.
Proof. reflexivity. Qed.

(** An obstacle of a batch starts at [y = -30], inside its lane's band. *)
Lemma topObstacle_band (id : Q) (lane : Z) :
  Obstacle.y (topObstacle id lane) = -30 /\
  Obstacle.lane (topObstacle id lane) = Some lane /\
  laneLeft lane <= Obstacle.x (topObstacle id lane) /\
  Obstacle.x (topObstacle id lane) + Obstacle.width (topObstacle id lane)
    <= laneRight lane.
Proof.
  split; [reflexivity|]. split; [reflexivity|].
  unfold laneLeft, laneRight, topObstacle. cbn [Obstacle.x Obstacle.width].
  rewrite inject_Z_plus, LANE_WIDTH_value. change (inject_Z 1) with 1.
  split; lra.
Qed.

Lemma newObstacles_lanes (ids : nat -> Q) (lanes : list Z) :
  map Obstacle.lane (imap (fun i lane => topObstacle (ids i) lane) lanes) =
  map Some lanes.
Proof.
  revert ids. induction lanes as [|lane lanes IH]; intros ids; [reflexivity|].
  rewrite imap_cons. cbn [map]. f_equal. apply (IH (ids ∘ S)).
Qed.

(** The lanes of a batch: between 1 and [LANES - 1] of them, pairwise
    distinct, all on the road, and one lane of the road is not among them. *)
Lemma obstacleLanes_spec (count : Q) (order : Shuffle) :
  0 <= count < 1 ->
  let lanes := obstacleLanes count order in
  (1 <= Z.of_nat (length lanes) <= LANES - 1)%Z /\
  NoDup lanes /\
  (forall lane, lane ∈ lanes -> (0 <= lane <= LANES - 1)%Z) /\
  (exists open, (0 <= open <= LANES - 1)%Z /\ open ∉ lanes).
Proof.
  intros Hc. cbv zeta. unfold obstacleLanes, slice0.
  pose proof (numObstacles_range count Hc) as Hn. unfold LANES in *.
  destruct (numObstacles count <? 0)%Z eqn:E; [apply Z.ltb_lt in E; lia|].
  clear E.
  pose proof (sortRandom_perm order availableLanes) as Hp.
  set (p := sortRandom order availableLanes) in *.
  rewrite availableLanes_eq in Hp.
  set (n := Z.to_nat (numObstacles count)).
  assert (length p = 5%nat) as Hlen by (rewrite Hp; reflexivity).
  assert (NoDup p) as Hnd.
  { rewrite Hp. repeat constructor; rewrite ?elem_of_cons, elem_of_nil; lia. }
  assert (forall lane, lane ∈ p -> (0 <= lane <= 5 - 1)%Z) as Hrange.
  { intros lane. rewrite Hp, !elem_of_cons, elem_of_nil. lia. }
  rewrite <- (take_drop n p) in Hnd. apply NoDup_app in Hnd.
  destruct Hnd as (Htake & Hdisj & _).
  assert (forall lane, lane ∈ take n p -> lane ∈ p) as Hsub.
  { intros lane H. rewrite <- (take_drop n p), elem_of_app. left. exact H. }
  repeat apply conj.
  - rewrite length_take, Hlen. unfold n. lia.
  - rewrite length_take, Hlen. unfold n. lia.
  - exact Htake.
  - intros lane H. apply Hrange, Hsub, H.
  - destruct (drop n p) as [|open rest] eqn:Ed.
    + apply (f_equal length) in Ed. rewrite length_drop, Hlen in Ed.
      cbn [length] in Ed. unfold n in Ed. lia.
    + assert (open ∈ drop n p) as Ho by (rewrite Ed; left).
      exists open. split.
      * apply Hrange. rewrite <- (take_drop n p), elem_of_app. right. exact Ho.
      * intros Hin. apply (Hdisj open Hin). rewrite <- Ed. exact Ho.
Qed.

Lemma topSpawns_iff (c : Chance) (now last : Z) :
  topSpawns c now last = true <->
  topGate c < 0.015 /\ (now - last > 2000)%Z.
Proof.
  unfold topSpawns. rewrite andb_true_iff, Qltb_lt, Z.gtb_lt. intuition lia.
Qed.

Lemma spawnTop_spec (c : Chance) (last : Z) (s : App) :
  topObstacles (spawnTop c last s) =
  topObstacles s ++ (if topSpawns c (clock s) last then newObstacles c else []).
Proof.
  unfold spawnTop.
  destruct (topSpawns c (clock s) last); [reflexivity|].
  rewrite app_nil_r. reflexivity.
Qed.

Lemma spawnBottom_frame (c : Chance) (s : App) :
  clock (spawnBottom c s) = clock s /\
  topObstacles (spawnBottom c s) = topObstacles s.
Proof. unfold spawnBottom. branches; split; reflexivity. Qed.

Lemma topObstacles_gameLoop (c : Chance) (s : App) :
  topObstacles (gameLoop c s) =
  moveTopObstacles (topScreenSpeed s) (topObstacles s) ++
  (if topSpawns c (clock s) (lastTopObstacleTime s)
   then newObstacles c else []).
Proof.
  unfold gameLoop. cbv zeta.
  cbn [topObstacles setGameSpeed setBottomScreenSpeed setTopScreenSpeed
       setScore].
  rewrite spawnTop_spec.
  cbn [clock topObstacles setLastBottomObstacleX].
  rewrite (proj1 (spawnBottom_frame c _)), (proj2 (spawnBottom_frame c _)).
  reflexivity.
Qed.

Lemma spawnBottom_cooldown (c : Chance) (s : App) :
  clock (spawnBottom c s) = clock s /\
  lastTopObstacleTime (spawnBottom c s) = lastTopObstacleTime s.
Proof. unfold spawnBottom. branches; split; reflexivity. Qed.

Lemma cooldown_gameLoop (c : Chance) (s : App) :
  clock (gameLoop c s) = clock s /\
  lastTopObstacleTime (gameLoop c s) =
  (if topSpawns c (clock s) (lastTopObstacleTime s)
   then clock s else lastTopObstacleTime s).
Proof.
  unfold gameLoop, spawnTop. cbv zeta.
  cbn [clock lastTopObstacleTime setGameSpeed setBottomScreenSpeed
       setTopScreenSpeed setScore setLastBottomObstacleX].
  rewrite !(proj1 (spawnBottom_cooldown c _)).
  cbn [clock setTopObstacles setBottomObstacles].
  destruct (topSpawns c (clock s) (lastTopObstacleTime s));
    cbn [clock lastTopObstacleTime setLastTopObstacleTime setTopObstacles
         setLastBottomObstacleX];
    rewrite ?(proj1 (spawnBottom_cooldown c _)),
            ?(proj2 (spawnBottom_cooldown c _));
    split; reflexivity.
Qed.

Lemma cooldown_collisionEffect (s : App) :
  clock (collisionEffect s) = clock s /\
  lastTopObstacleTime (collisionEffect s) = lastTopObstacleTime s.
Proof. unfold collisionEffect. branches; split; reflexivity. Qed.

(** Within a game the clock only moves forward, by the time that goes by,
    and [lastTopObstacleTime] is only ever set to the clock's value. *)
Lemma cooldown_step (s : App) (ev : Event) :
  sameGame ev ->
  clock (step s ev) = (clock s + elapsed [ev])%Z /\
  (lastTopObstacleTime (step s ev) = lastTopObstacleTime s \/
   lastTopObstacleTime (step s ev) = clock s).
Proof.
  intros [Hs Hr]. unfold step.
  destruct (cooldown_collisionEffect (dispatch ev s)) as [-> ->].
  destruct ev; cbn [dispatch elapsed fold_right].
  - unfold handleKeyDown. branches; split; first [cbn; lia | left; reflexivity].
  - split; [cbn; lia|left; reflexivity].
  - destruct (bool_decide (gameState s = playing));
      [|split; [lia|left; reflexivity]].
    unfold updatePlayers, updateBottomPlayer, moveLeft, moveRight.
    branches; split; first [cbn; lia | left; reflexivity].
  - unfold jumpPhysics. branches; split; first [cbn; lia | left; reflexivity].
  - destruct (bool_decide (gameState s = playing));
      [|split; [lia|left; reflexivity]].
    destruct (cooldown_gameLoop c s) as [-> ->].
    split; [lia|]. branches; [right|left]; reflexivity.
  - contradiction Hs. reflexivity.
  - split; [cbn; lia|left; reflexivity].
  - contradiction Hr. reflexivity.
  - unfold runTimeouts. branches; split; first [cbn; lia | left; reflexivity].
  - split; [cbn; lia|left; reflexivity].
Qed.

Lemma elapsed_nonneg (evs : list Event) : (0 <= elapsed evs)%Z.
Proof.
  induction evs as [|ev evs IH]; [reflexivity|].
  cbn [elapsed fold_right]. fold (elapsed evs). destruct ev; lia.
Qed.

Lemma elapsed_cons (ev : Event) (evs : list Event) :
  elapsed (ev :: evs) = (elapsed [ev] + elapsed evs)%Z.
Proof.
  cbn [elapsed fold_right]. fold (elapsed evs). destruct ev; lia.
Qed.

Lemma cooldown_run (evs : list Event) (s : App) (since : Z) :
  Forall sameGame evs ->
  (since <= lastTopObstacleTime s)%Z -> (since <= clock s)%Z ->
  clock (run evs s) = (clock s + elapsed evs)%Z /\
  (since <= lastTopObstacleTime (run evs s))%Z.
Proof.
  intros H. revert s. induction H as [|ev evs Hev _ IH]; intros s Hl Hc.
  - cbn. split; [lia|exact Hl].
  - change (run (ev :: evs) s) with (run evs (step s ev)).
    destruct (cooldown_step s ev Hev) as [Ec El].
    pose proof (elapsed_nonneg [ev]) as Hn.
    destruct (IH (step s ev)) as [Ec' El']; [destruct El as [->| ->]; lia|lia|].
    rewrite Ec', Ec, (elapsed_cons ev evs). split; [lia|exact El'].
Qed.

(** C5. A game-loop tick appends a batch to the top stream exactly when the
    spawn draw is below 0.015 and more than 2000 ms have gone by since
    [lastTopObstacleTime]; with less than 2000 ms gone by it appends none.
    A tick that appends a batch sets [lastTopObstacleTime] to the clock's
    value, any other tick leaves it alone; so once a batch is in, no tick of
    the same game appends another one until more than 2000 ms have gone by,
    whatever happens in between.  A batch holds between 1 and [LANES - 1]
    obstacles, in pairwise distinct lanes of the road, and some lane of the
    road stays free; each obstacle starts at [y = -30] with its span inside
    its lane's band. *)
Theorem top_batch_leaves_a_lane_open :
  (forall c now last,
     topSpawns c now last = true <->
     topGate c < 0.015 /\ (now - last > 2000)%Z) /\
  (forall c s,
     topObstacles (gameLoop c s) =
     moveTopObstacles (topScreenSpeed s) (topObstacles s) ++
     (if topSpawns c (clock s) (lastTopObstacleTime s)
      then newObstacles c else [])) /\
  (forall c s,
     lastTopObstacleTime (gameLoop c s) =
     (if topSpawns c (clock s) (lastTopObstacleTime s)
      then clock s else lastTopObstacleTime s)) /\
  (forall c s, (clock s - lastTopObstacleTime s < 2000)%Z ->
     topObstacles (gameLoop c s) =
     moveTopObstacles (topScreenSpeed s) (topObstacles s)) /\
  (forall c s evs c',
     topSpawns c (clock s) (lastTopObstacleTime s) = true ->
     Forall sameGame evs ->
     (elapsed evs <= 2000)%Z ->
     let s' := run evs (gameLoop c s) in
     topObstacles (gameLoop c' s') =
     moveTopObstacles (topScreenSpeed s') (topObstacles s')) /\
  (forall c, 0 <= topCount c < 1 ->
     let lanes := obstacleLanes (topCount c) (topOrder c) in
     (1 <= Z.of_nat (length lanes) <= LANES - 1)%Z /\
     NoDup lanes /\
     (forall lane, lane ∈ lanes -> (0 <= lane <= LANES - 1)%Z) /\
     (exists open, (0 <= open <= LANES - 1)%Z /\ open ∉ lanes) /\
     length (newObstacles c) = length lanes /\
     map Obstacle.lane (newObstacles c) = map Some lanes /\
     (forall obs, obs ∈ newObstacles c ->
        Obstacle.y obs = -30 /\
        exists lane, Obstacle.lane obs = Some lane /\ lane ∈ lanes /\
          laneLeft lane <= Obstacle.x obs /\
          Obstacle.x obs + Obstacle.width obs <= laneRight lane)).
Proof.
  repeat apply conj.
  - apply topSpawns_iff.
  - apply topObstacles_gameLoop.
  - intros c s. apply cooldown_gameLoop.
  - intros c s H. rewrite topObstacles_gameLoop.
    destruct (topSpawns c (clock s) (lastTopObstacleTime s)) eqn:E.
    + apply topSpawns_iff in E. lia.
    + apply app_nil_r.
  - intros c s evs c' Hspawn Hevs Hms. cbv zeta.
    destruct (cooldown_gameLoop c s) as [Ec El]. rewrite Hspawn in El.
    destruct (cooldown_run evs (gameLoop c s) (clock s) Hevs) as [Ec' El'];
      [lia|lia|].
    rewrite topObstacles_gameLoop.
    destruct (topSpawns c' _ _) eqn:E.
    + apply topSpawns_iff in E. lia.
    + apply app_nil_r.
  - intros c Hc. cbv zeta.
    destruct (obstacleLanes_spec _ (topOrder c) Hc) as (Hlen & Hnd & Hr & Ho).
    split; [exact Hlen|]. split; [exact Hnd|]. split; [exact Hr|].
    split; [exact Ho|]. unfold newObstacles.
    split; [apply length_imap|]. split; [apply newObstacles_lanes|].
    intros obs Hobs. apply elem_of_lookup_imap in Hobs.
    destruct Hobs as (i & lane & -> & Hi).
    destruct (topObstacle_band (topIds c i) lane) as (Ey & El & Hx & Hw).
    split; [exact Ey|]. exists lane.
    split; [exact El|]. split; [|split; assumption].
    apply list_elem_of_lookup. exists i. exact Hi.
Qed.

(** A batch of four, for a call of [sort] that happens to reverse the
    lanes: lane 0 stays free. *)
Lemma top_batch_leaves_a_lane_open_witness :
  let c := mkChance 0 0 0 0 0.99 reversed (fun _ => 0) [] in
  0 <= topCount c < 1 /\
  obstacleLanes (topCount c) (topOrder c) = [4; 3; 2; 1]%Z /\
  NoDup (obstacleLanes (topCount c) (topOrder c)).
Proof.
  cbv zeta.
  assert (0 <= topCount (mkChance 0 0 0 0 0.99 reversed (fun _ => 0) []) < 1)
    as Hc by (split; [intros Hc; discriminate Hc|reflexivity]).
  split; [exact Hc|]. split; [vm_compute; reflexivity|].
  exact (proj1 (proj2 (proj2 (proj2 (proj2 (proj2
           (proj2 top_batch_leaves_a_lane_open)))) _ Hc))).
Defined.

(** A key-down event that arrives again before any key-up, as a keyboard's
    auto-repeat sends it, latches the key again: the next tick moves once
    more. *)
Lemma repeated_keydown_moves_again :
  let held := [ClickStart; KeyDown "ArrowLeft"; UpdatePlayersTick] in
  topPlayerLane (run held (mount None 0)) = 1%Z /\
  topPlayerLane (run (held ++ [UpdatePlayersTick]) (mount None 0)) = 1%Z /\
  topPlayerLane
    (run (held ++ [KeyDown "ArrowLeft"; UpdatePlayersTick]) (mount None 0)) = 0%Z.
Proof. vm_compute. repeat split. Qed.

(** The cooldown is strict: with exactly 2000 ms gone by since the last
    batch, the tick appends none, whatever it draws. *)
Lemma no_batch_at_2000_ms (c : Chance) (s : App) :
  (clock s - lastTopObstacleTime s = 2000)%Z ->
  topObstacles (gameLoop c s) =
  moveTopObstacles (topScreenSpeed s) (topObstacles s).
Proof.
  intros H. rewrite topObstacles_gameLoop.
  destruct (topSpawns c (clock s) (lastTopObstacleTime s)) eqn:E.
  - apply topSpawns_iff in E. lia.
  - apply app_nil_r.
Qed.

(** The cooldown is that of one game: a start sets [lastTopObstacleTime]
    back to 0 and empties the stream, so the first gated tick of the new
    game appends a batch, here 32 ms after the batch of the game before. *)
Lemma batch_right_after_restart :
  let c := mkChance 0.5 0 0 0.01 0.99 reversed (fun _ => 0) [] in
  let before := [ClickStart; Elapse 5000; GameLoopTick c] in
  let after := before ++ [Elapse 16; ClickStart; Elapse 16; GameLoopTick c] in
  map Obstacle.lane (topObstacles (run before (mount None 0)))
  = [Some 4; Some 3; Some 2; Some 1]%Z /\
  lastTopObstacleTime (run before (mount None 0)) = 5000%Z /\
  map Obstacle.lane (topObstacles (run after (mount None 0)))
  = [Some 4; Some 3; Some 2; Some 1]%Z /\
  map Obstacle.y (topObstacles (run after (mount None 0)))
  = [-30; -30; -30; -30] /\
  lastTopObstacleTime (run after (mount None 0)) = 5032%Z.
Proof. vm_compute. repeat split. Qed.

(** * Further properties of the simulation *)

(** ** Ending the game and the high score (lines 328-366) *)

Lemma collisionEffect_unfold (s : App) :
  collisionEffect s =
  if bool_decide (gameState s = playing) && collides s then
    let s' := setGameState gameOver s in
    if (score s >? highScore s)%Z
    then setStored (Some (score s)) (setHighScore (score s) s')
    else s'
  else s.
Proof.
  unfold collisionEffect, collides.
  destruct (bool_decide (gameState s = playing)); [|reflexivity].
  cbn [andb]. reflexivity.
Qed.

Lemma collisionEffect_quiet (s : App) :
  gameState s <> playing \/ collides s = false -> collisionEffect s = s.
Proof.
  intros H. rewrite collisionEffect_unfold.
  destruct H as [H|H].
  - rewrite (bool_decide_eq_false_2 _ H). reflexivity.
  - rewrite H, andb_false_r. reflexivity.
Qed.

Lemma collisionEffect_hit (s : App) :
  gameState s = playing -> collides s = true ->
  gameState (collisionEffect s) = gameOver /\
  highScore (collisionEffect s) = Z.max (highScore s) (score s) /\
  stored (collisionEffect s) =
    (if (score s >? highScore s)%Z then Some (score s) else stored s).
Proof.
  intros Hg Hc. rewrite collisionEffect_unfold.
  rewrite (bool_decide_eq_true_2 _ Hg), Hc. cbn [andb]. cbv zeta.
  destruct (score s >? highScore s)%Z eqn:E.
  - apply Z.gtb_lt in E. repeat split. cbn. lia.
  - assert (score s <= highScore s)%Z
      by (destruct (Z.gtb_spec (score s) (highScore s)); [discriminate|lia]).
    repeat split. cbn. lia.
Qed.

(** X1. A hit while playing ends the game, raises the high score to the score
    when the score is a record and stores it then; without a hit, or in any
    other state, the effect changes nothing; running the effect twice is
    running it once. *)
Theorem game_over_sets_high_score :
  (forall s, gameState s = playing -> collides s = true ->
     gameState (collisionEffect s) = gameOver /\
     highScore (collisionEffect s) = Z.max (highScore s) (score s) /\
     stored (collisionEffect s) =
       (if (score s >? highScore s)%Z then Some (score s) else stored s)) /\
  (forall s, gameState s <> playing \/ collides s = false ->
     collisionEffect s = s) /\
  (forall s, collisionEffect (collisionEffect s) = collisionEffect s).
Proof.
  repeat apply conj.
  - apply collisionEffect_hit.
  - apply collisionEffect_quiet.
  - intros s. destruct (bool_decide (gameState s = playing)) eqn:Hg.
    + apply bool_decide_eq_true in Hg. destruct (collides s) eqn:Hc.
      * apply collisionEffect_quiet. left.
        rewrite (proj1 (collisionEffect_hit s Hg Hc)). discriminate.
      * rewrite (collisionEffect_quiet s) by (right; exact Hc).
        apply collisionEffect_quiet. right. exact Hc.
    + apply bool_decide_eq_false in Hg.
      rewrite (collisionEffect_quiet s) by (left; exact Hg).
      apply collisionEffect_quiet. left. exact Hg.
Qed.

(** A score of 120 against a high score of 100: the hit stores 120. *)
Lemma game_over_sets_high_score_witness :
  let s := setScore 120
             (setBottomObstacles [Obstacle.mk 0 100 210 35 40 ground_box None]
                (startGame (mount (Some 100%Z) 0))) in
  gameState (collisionEffect s) = gameOver /\
  highScore (collisionEffect s) = Z.max (highScore s) (score s) /\
  stored (collisionEffect s) =
    (if (score s >? highScore s)%Z then Some (score s) else stored s).
Proof.
  apply (proj1 game_over_sets_high_score); vm_compute; reflexivity.
Defined.

Lemma highScore_dispatch (s : App) (ev : Event) :
  highScore (dispatch ev s) = highScore s /\ stored (dispatch ev s) = stored s.
Proof.
  destruct ev; simpl.
  - unfold handleKeyDown. branches; split; reflexivity.
  - split; reflexivity.
  - destruct (bool_decide (gameState s = playing)); [|split; reflexivity].
    unfold updatePlayers, updateBottomPlayer, moveLeft, moveRight.
    branches; split; reflexivity.
  - unfold jumpPhysics. branches; split; reflexivity.
  - unfold gameLoop, spawnTop, spawnBottom. branches; split; reflexivity.
  - split; reflexivity.
  - split; reflexivity.
  - split; reflexivity.
  - unfold runTimeouts. branches; split; reflexivity.
  - split; reflexivity.
Qed.

Lemma highScore_collisionEffect (s : App) :
  (highScore s <= highScore (collisionEffect s))%Z /\
  (storedMirrors s -> storedMirrors (collisionEffect s)).
Proof.
  rewrite collisionEffect_unfold.
  destruct (bool_decide (gameState s = playing) && collides s);
    [|split; [lia|auto]].
  cbv zeta. destruct (score s >? highScore s)%Z eqn:E.
  - apply Z.gtb_lt in E. split; [cbn; lia|]. intros _. reflexivity.
  - split; [cbn; lia|]. intros H. exact H.
Qed.

(** X2. In every session that finds the storage empty or holding an entry
    the program wrote, the stored high score is the displayed one (0 when
    nothing is stored); and no event, start and reset included, lowers the
    high score. *)
Theorem high_score_only_grows :
  (forall evs saved now,
     writtenEntry saved -> storedMirrors (run evs (mount saved now))) /\
  (forall evs s, (highScore s <= highScore (run evs s))%Z).
Proof.
  split.
  - intros evs saved now _. apply run_invariant.
    + intros s ev H. unfold step.
      apply highScore_collisionEffect.
      unfold storedMirrors.
      destruct (highScore_dispatch s ev) as [Eh Es]. rewrite Eh, Es. exact H.
    + unfold storedMirrors. destruct saved; reflexivity.
  - intros evs. unfold run.
    induction evs as [|ev evs IH]; intros s; simpl; [lia|].
    specialize (IH (step s ev)).
    assert (highScore s <= highScore (step s ev))%Z; [|lia].
    unfold step.
    pose proof (proj1 (highScore_collisionEffect (dispatch ev s))) as H.
    rewrite (proj1 (highScore_dispatch s ev)) in H. exact H.
Qed.

(** A stored high score of 100, and a game started. *)
Lemma high_score_only_grows_witness :
  writtenEntry (Some 100%Z) /\
  storedMirrors (run [ClickStart] (mount (Some 100%Z) 0)).
Proof.
  assert (writtenEntry (Some 100%Z)) as H by (cbn; lia).
  split; [exact H|].
  exact (proj1 high_score_only_grows [ClickStart] (Some 100%Z) 0%Z H).
Defined.

(** ** The state machine (lines 68-99, 103, 168, 258, 359-360, 368-402) *)

Lemma gameState_collisionEffect (s : App) :
  gameState (collisionEffect s) = gameState s \/
  (gameState s = playing /\ gameState (collisionEffect s) = gameOver).
Proof.
  rewrite collisionEffect_unfold.
  destruct (bool_decide (gameState s = playing)) eqn:Hg; [|left; reflexivity].
  apply bool_decide_eq_true in Hg.
  destruct (collides s); [|left; reflexivity].
  right. split; [exact Hg|]. cbn [andb]. cbv zeta.
  destruct (score s >? highScore s)%Z; reflexivity.
Qed.

Lemma handleKeyDown_idle (key : string) (s : App) :
  handleKeyDown idle key s =
  if bool_decide (key = " "%string) then s
  else setKeysPressed ({[ key ]} ∪ keysPressed s) s.
Proof.
  unfold handleKeyDown. destruct (bool_decide (key = " "%string)); reflexivity.
Qed.

Lemma gameState_dispatch (s : App) (ev : Event) :
  ev <> ClickStart -> ev <> ClickPause -> ev <> ClickReset ->
  gameState (dispatch ev s) = gameState s.
Proof.
  intros Hs Hp Hr. destruct ev; simpl; try congruence.
  - rewrite handleKeyDown_idle. branches; reflexivity.
  - destruct (bool_decide (gameState s = playing)); [|reflexivity].
    unfold updatePlayers, updateBottomPlayer, moveLeft, moveRight.
    branches; reflexivity.
  - unfold jumpPhysics. branches; reflexivity.
  - unfold gameLoop, spawnTop, spawnBottom. branches; reflexivity.
  - unfold runTimeouts. branches; reflexivity.
Qed.

Lemma startGame_quiet (s : App) : collisionEffect (startGame s) = startGame s.
Proof. apply collisionEffect_quiet. right. reflexivity. Qed.

(** While the game is not being played, no interval callback is installed. *)
Lemma frozen_step (s : App) (ev : Event) :
  gameState s <> playing -> isTick ev = true -> step s ev = s.
Proof.
  intros Hg Hev. unfold step.
  assert (dispatch ev s = s) as E.
  { destruct ev; try discriminate Hev; simpl;
      rewrite (bool_decide_eq_false_2 _ Hg); reflexivity. }
  rewrite E. apply collisionEffect_quiet. left. exact Hg.
Qed.

Lemma frozen_run (evs : list Event) (s : App) :
  gameState s <> playing -> forallb isTick evs = true -> run evs s = s.
Proof.
  intros Hg. unfold run.
  induction evs as [|ev evs IH]; intros Hevs; simpl; [reflexivity|].
  simpl in Hevs. apply andb_true_iff in Hevs. destruct Hevs as [Hev Hevs].
  rewrite (frozen_step s ev Hg Hev). apply IH, Hevs.
Qed.

(** X3. The transitions of [gameState]: start leads to [playing] and reset to
    [idle] from any state; the pause button leads to [paused] unless the
    state is [paused] already, from where it resumes; every other event
    leaves the state alone or, from [playing], ends the game.  In a state
    other than [playing] the three ticks change nothing at all. *)
Theorem gameState_transitions (s : App) (ev : Event) :
  match ev with
  | ClickStart => gameState (step s ev) = playing
  | ClickReset => gameState (step s ev) = idle
  | ClickPause =>
      if bool_decide (gameState s = paused)
      then gameState (step s ev) = playing \/ gameState (step s ev) = gameOver
      else gameState (step s ev) = paused
  | _ =>
      (gameState (step s ev) = gameState s \/
       (gameState s = playing /\ gameState (step s ev) = gameOver)) /\
      (gameState s <> playing -> isTick ev = true -> step s ev = s)
  end.
Proof.
  assert (forall ev, ev <> ClickStart -> ev <> ClickPause -> ev <> ClickReset ->
    (gameState (step s ev) = gameState s \/
       (gameState s = playing /\ gameState (step s ev) = gameOver)) /\
    (gameState s <> playing -> isTick ev = true -> step s ev = s)) as Hother.
  { intros ev' Hs Hp Hr. split; [|apply frozen_step].
    unfold step.
    destruct (gameState_collisionEffect (dispatch ev' s)) as [H|[H1 H2]];
      rewrite gameState_dispatch in * by assumption; auto. }
  destruct ev; try (apply Hother; discriminate).
  - unfold step. cbn [dispatch]. rewrite startGame_quiet. reflexivity.
  - unfold step. cbn [dispatch].
    destruct (bool_decide (gameState s = paused)) eqn:E.
    + destruct (gameState_collisionEffect (pauseGame s)) as [H|[_ H]].
      * left. rewrite H. unfold pauseGame. rewrite E. reflexivity.
      * right. exact H.
    + rewrite collisionEffect_quiet.
      * unfold pauseGame. rewrite E. reflexivity.
      * left. unfold pauseGame. rewrite E. discriminate.
  - unfold step. cbn [dispatch]. rewrite collisionEffect_quiet; [reflexivity|].
    left. discriminate.
Qed.

Lemma pauseGame_twice (s : App) :
  gameState s = playing -> pauseGame (pauseGame s) = s.
Proof.
  intros H. destruct s. simpl in H. subst. reflexivity.
Qed.

(** X4. Pausing a game, letting any number of ticks go by and resuming it gives
    the session back as it was. *)
Theorem pause_resume_round_trip (s : App) (evs : list Event) :
  gameState s = playing -> collides s = false ->
  forallb isTick evs = true ->
  run (ClickPause :: evs ++ [ClickPause]) s = s.
Proof.
  intros Hg Hc Hevs.
  assert (gameState (pauseGame s) <> playing) as Hp
    by (unfold pauseGame; rewrite Hg; discriminate).
  change (run (ClickPause :: evs ++ [ClickPause]) s)
    with (run (evs ++ [ClickPause]) (step s ClickPause)).
  assert (step s ClickPause = pauseGame s) as E
    by (apply collisionEffect_quiet; left; exact Hp).
  rewrite E, run_app, (frozen_run evs _ Hp Hevs).
  change (run [ClickPause] (pauseGame s))
    with (collisionEffect (pauseGame (pauseGame s))).
  rewrite (pauseGame_twice s Hg).
  apply collisionEffect_quiet. right. exact Hc.
Qed.

Lemma pause_resume_round_trip_witness :
  run (ClickPause :: [GameLoopTick quiet; UpdatePlayersTick] ++ [ClickPause])
    (run [ClickStart; GameLoopTick quiet] (mount None 0)) =
  run [ClickStart; GameLoopTick quiet] (mount None 0).
Proof.
  apply pause_resume_round_trip; vm_compute; reflexivity.
Defined.

(** ** The keyboard latch (lines 68-99) *)

Lemma space_absent_dispatch (s : App) (ev : Event) :
  " "%string ∉ keysPressed s -> " "%string ∉ keysPressed (dispatch ev s).
Proof.
  intros H. destruct ev; simpl.
  - unfold handleKeyDown.
    destruct (bool_decide (key = " "%string)) eqn:E; [branches; exact H|].
    apply bool_decide_eq_false in E. cbn.
    rewrite elem_of_union, elem_of_singleton. intros [Hk|Hk]; congruence.
  - cbn. rewrite elem_of_difference. tauto.
  - destruct (bool_decide (gameState s = playing)); [|exact H].
    rewrite updatePlayers_keys. cbv zeta.
    destruct (leftKey (keysPressed s)), (rightKey (keysPressed s)); absent.
  - unfold jumpPhysics. branches; exact H.
  - unfold gameLoop, spawnTop, spawnBottom. branches; exact H.
  - exact H.
  - exact H.
  - exact H.
  - unfold runTimeouts. branches; exact H.
  - exact H.
Qed.

(** X5. The key handlers are those of the first render, whose [gameState] is
    [idle]: a space key-down changes nothing, so it neither pauses nor
    resumes, no key-down changes [gameState], and the space key never
    enters the pressed set.  A handler reading the current state would
    pause a game being played and resume a paused one. *)
Theorem space_key_does_not_pause :
  (forall s, dispatch (KeyDown " ") s = s) /\
  (forall s key, gameState (dispatch (KeyDown key) s) = gameState s) /\
  (forall evs saved now, " "%string ∉ keysPressed (run evs (mount saved now))) /\
  (forall s, gameState s = playing ->
     gameState (handleKeyDown (gameState s) " " s) = paused) /\
  (forall s, gameState s = paused ->
     gameState (handleKeyDown (gameState s) " " s) = playing).
Proof.
  repeat apply conj.
  - reflexivity.
  - intros s key. apply gameState_dispatch; discriminate.
  - intros evs saved now. apply run_invariant.
    + intros s ev H. unfold step.
      destruct (collisionEffect_frame (dispatch ev s))
        as (_ & _ & _ & _ & Ek & _).
      rewrite Ek. apply space_absent_dispatch, H.
    + apply not_elem_of_empty.
  - intros s H. unfold handleKeyDown. rewrite H. reflexivity.
  - intros s H. unfold handleKeyDown. rewrite H. reflexivity.
Qed.

(** X6. A key other than space is latched by its key-down and released by its
    key-up; neither touches another key; a key-down followed by the key-up
    of a key that was not pressed restores the pressed set. *)
Theorem key_latch_round_trip :
  (forall seen key s, key <> " "%string ->
     has key (keysPressed (handleKeyDown seen key s)) = true) /\
  (forall key s, has key (keysPressed (handleKeyUp key s)) = false) /\
  (forall seen key key' s, key' <> key ->
     has key' (keysPressed (handleKeyDown seen key s)) =
     has key' (keysPressed s)) /\
  (forall key key' s, key' <> key ->
     has key' (keysPressed (handleKeyUp key s)) = has key' (keysPressed s)) /\
  (forall seen key s, key <> " "%string -> key ∉ keysPressed s ->
     keysPressed (handleKeyUp key (handleKeyDown seen key s)) = keysPressed s).
Proof.
  repeat apply conj.
  - intros seen key s Hk. unfold handleKeyDown.
    rewrite (bool_decide_eq_false_2 _ Hk). apply bool_decide_eq_true. cbn.
    apply elem_of_union. left. apply elem_of_singleton. reflexivity.
  - intros key s. apply bool_decide_eq_false. cbn.
    rewrite elem_of_difference, elem_of_singleton. tauto.
  - intros seen key key' s Hk. unfold handleKeyDown.
    destruct (bool_decide (key = " "%string)); [branches; reflexivity|].
    apply bool_decide_ext. cbn.
    rewrite elem_of_union, elem_of_singleton. tauto.
  - intros key key' s Hk. apply bool_decide_ext. cbn.
    rewrite elem_of_difference, elem_of_singleton. tauto.
  - intros seen key s Hk Hn. unfold handleKeyDown.
    rewrite (bool_decide_eq_false_2 _ Hk). cbn.
    apply set_eq. intros k.
    rewrite elem_of_difference, elem_of_union, elem_of_singleton.
    split; [tauto|]. intros Hin. split; [tauto|]. congruence.
Qed.

Lemma key_latch_round_trip_witness :
  has "ArrowUp" (keysPressed (handleKeyDown idle "ArrowUp" (mount None 0))) = true.
Proof.
  apply (proj1 key_latch_round_trip). discriminate.
Defined.

(** ** The bottom player and the ground (lines 105-127, 170-185) *)

Lemma Qle_bool_false (a b : Q) : Qle_bool a b = false -> b < a.
Proof.
  intros H. apply Qnot_le_lt. intros Hle.
  apply Qle_bool_iff in Hle. congruence.
Qed.

Lemma Player_eta (p : Player.t) : Player.mk (Player.x p) (Player.y p) = p.
Proof. destruct p. reflexivity. Qed.

Lemma bottomPlayer_updatePlayers (s : App) :
  bottomPlayer (updatePlayers s) = bottomPlayer s.
Proof.
  unfold updatePlayers.
  assert (bottomPlayer
            (updateBottomPlayer (keysPressed s) (bottomPlayerState s) s) =
          bottomPlayer s) as E.
  { unfold updateBottomPlayer. cbv zeta.
    cbn [bottomPlayer setBottomPlayer]. apply Player_eta. }
  destruct (leftKey (keysPressed s)), (rightKey (keysPressed s)); exact E.
Qed.

Lemma aboveGround_jumpPhysics (s : App) :
  Player.y (bottomPlayer (jumpPhysics s)) <= groundY.
Proof.
  unfold jumpPhysics. cbv zeta.
  destruct (Player.y (bottomPlayer s) + jumpVelocity s >=?
            GAME_HEIGHT - GROUND_HEIGHT - PLAYER_SIZE / 2) eqn:E.
  - apply Qle_refl.
  - apply Qlt_le_weak, Qle_bool_false, E.
Qed.

Lemma aboveGround_dispatch (s : App) (ev : Event) :
  Player.y (bottomPlayer s) <= groundY ->
  Player.y (bottomPlayer (dispatch ev s)) <= groundY.
Proof.
  intros H. destruct ev; cbn [dispatch].
  - rewrite handleKeyDown_idle. branches; exact H.
  - exact H.
  - destruct (bool_decide (gameState s = playing)); [|exact H].
    rewrite bottomPlayer_updatePlayers. exact H.
  - destruct (bool_decide (gameState s = playing)
              && bool_decide (bottomPlayerState s = jumping)); [|exact H].
    apply aboveGround_jumpPhysics.
  - destruct (bool_decide (gameState s = playing)); [|exact H].
    unfold gameLoop, spawnTop, spawnBottom. branches; exact H.
  - apply Qle_refl.
  - exact H.
  - apply Qle_refl.
  - unfold runTimeouts. branches; exact H.
  - exact H.
Qed.

Lemma aboveGround_run (evs : list Event) (saved : option Z) (now : Z) :
  Player.y (bottomPlayer (run evs (mount saved now))) <= groundY.
Proof.
  apply (run_invariant (fun s => Player.y (bottomPlayer s) <= groundY)).
  - intros s ev H. unfold step.
    destruct (collisionEffect_frame (dispatch ev s)) as (_ & Eb & _).
    rewrite Eb. apply aboveGround_dispatch, H.
  - apply Qle_refl.
Qed.

Lemma PLAYER_SIZE_half : PLAYER_SIZE / 2 == 15.
Proof. reflexivity. Qed.

Lemma PLAYER_SIZE_third : PLAYER_SIZE / 3 == 10.
Proof. reflexivity. Qed.

Lemma groundY_value : groundY == 235.
Proof. reflexivity. Qed.

(** X7. The bottom player is never below the ground line, and for that reason
    no obstacle whose top edge is the ground line, as a pit's is, ever hits
    it, in any state of the player and wherever the obstacle is. *)
Theorem never_below_ground_never_in_a_pit (evs : list Event)
    (saved : option Z) (now : Z) :
  let s := run evs (mount saved now) in
  Player.y (bottomPlayer s) <= groundY /\
  (forall obs, Obstacle.y obs == GAME_HEIGHT - GROUND_HEIGHT ->
     checkCollision (bottomPlayerState s) (bottomPlayer s) [obs] true = false).
Proof.
  cbv zeta. pose proof (aboveGround_run evs saved now) as H.
  set (s := run evs (mount saved now)) in *.
  split; [exact H|]. intros obs Hy.
  unfold checkCollision. cbn [existsb]. rewrite orb_false_r.
  apply not_true_is_false. rewrite overlap_test.
  unfold overlaps, playerBottom, obsTop. rewrite groundY_value in H.
  destruct (true && bool_decide (bottomPlayerState s = crawling));
    intros (_ & _ & Hb & _);
    rewrite Hy, ?PLAYER_SIZE_half, ?PLAYER_SIZE_third in Hb;
    unfold GAME_HEIGHT, GROUND_HEIGHT in *; lra.
Qed.

(** ** A jump cut short (lines 113-116, 123, 168, 368-382) *)

Lemma bottomPlayerState_updatePlayers_hover (s : App) :
  Player.y (bottomPlayer s) < groundY - 5 ->
  bottomPlayerState s <> jumping ->
  bottomPlayerState (updatePlayers s) <> jumping.
Proof.
  intros Hy Hs. unfold updatePlayers.
  assert (bottomPlayerState
            (updateBottomPlayer (keysPressed s) (bottomPlayerState s) s)
          <> jumping) as E.
  { unfold updateBottomPlayer. cbv zeta.
    assert ((Player.y (bottomPlayer s) >=?
             GAME_HEIGHT - GROUND_HEIGHT - PLAYER_SIZE / 2 - 5) = false) as Ej.
    { destruct (Player.y (bottomPlayer s) >=?
             GAME_HEIGHT - GROUND_HEIGHT - PLAYER_SIZE / 2 - 5) eqn:E;
        [|reflexivity].
      apply Qle_bool_iff in E. exfalso. exact (Qlt_not_le _ _ Hy E). }
    rewrite Ej, andb_false_r.
    destruct (crawlKey (keysPressed s)
              && bool_decide (bottomPlayerState s = running));
      [discriminate|exact Hs]. }
  destruct (leftKey (keysPressed s)), (rightKey (keysPressed s)); exact E.
Qed.

Lemma hover_dispatch (s : App) (ev : Event) :
  ev <> ClickStart -> ev <> ClickReset ->
  Player.y (bottomPlayer s) < groundY - 5 ->
  bottomPlayerState s <> jumping ->
  bottomPlayer (dispatch ev s) = bottomPlayer s /\
  bottomPlayerState (dispatch ev s) <> jumping.
Proof.
  intros Hst Hrs Hy Hs. destruct ev; cbn [dispatch]; try congruence.
  - rewrite handleKeyDown_idle. branches; split; auto.
  - split; auto.
  - destruct (bool_decide (gameState s = playing)); [|split; auto].
    split; [apply bottomPlayer_updatePlayers|].
    apply bottomPlayerState_updatePlayers_hover; assumption.
  - rewrite (bool_decide_eq_false_2 _ Hs), andb_false_r. split; auto.
  - destruct (bool_decide (gameState s = playing)); [|split; auto].
    unfold gameLoop, spawnTop, spawnBottom. branches; split; auto.
  - split; auto.
  - unfold runTimeouts. branches; split; auto; discriminate.
  - split; auto.
Qed.

(** X8. A player that is not jumping and hangs more than 5 above the ground
    line stays exactly where it is, and never jumps, until the game is
    started again or reset: the jump needs [y >= groundY - 5], and the
    physics runs only while jumping.  Such a state is reached when a crawl's
    callback, which start and reset do not cancel, runs during a jump. *)
Theorem hover_lock (s : App) (evs : list Event) :
  bottomPlayerState s <> jumping ->
  Player.y (bottomPlayer s) < groundY - 5 ->
  Forall (fun ev => ev <> ClickStart /\ ev <> ClickReset) evs ->
  bottomPlayer (run evs s) = bottomPlayer s /\
  bottomPlayerState (run evs s) <> jumping.
Proof.
  intros Hs Hy Hevs. unfold run. revert s Hs Hy.
  induction Hevs as [|ev evs [Hst Hrs] _ IH]; intros s Hs Hy; simpl;
    [split; auto|].
  destruct (hover_dispatch s ev Hst Hrs Hy Hs) as [Eb Es].
  destruct (collisionEffect_frame (dispatch ev s))
    as (_ & Eb' & _ & _ & _ & Es' & _).
  assert (bottomPlayer (step s ev) = bottomPlayer s) as E
    by (unfold step; rewrite Eb'; exact Eb).
  destruct (IH (step s ev)) as [IH1 IH2].
  - unfold step. rewrite Es'. exact Es.
  - rewrite E. exact Hy.
  - split; [rewrite IH1; exact E|exact IH2].
Qed.

Lemma hover_lock_witness :
  (gameState hovering = playing /\ bottomPlayerState hovering = running /\
   Player.y (bottomPlayer hovering) < groundY - 5) /\
  bottomPlayer
    (run [KeyDown "ArrowUp"; UpdatePlayersTick; JumpPhysicsTick;
          GameLoopTick quiet] hovering) = bottomPlayer hovering.
Proof.
  split; [vm_compute; repeat split|].
  apply (hover_lock hovering).
  - vm_compute. discriminate.
  - vm_compute. reflexivity.
  - repeat constructor; discriminate.
Defined.

(** ** Which obstacle hits the player where (lines 222-252, 301-309, 331-357) *)

Lemma checkCollision_single (st : BottomPlayerState) (player : Player.t)
    (obs : Obstacle.t) (isBottom : bool) :
  checkCollision st player [obs] isBottom = true <->
  overlaps st isBottom player obs.
Proof.
  unfold checkCollision. cbn [existsb]. rewrite orb_false_r.
  apply overlap_test.
Qed.

Lemma not_crawling (st : BottomPlayerState) :
  st <> crawling -> true && bool_decide (st = crawling) = false.
Proof. intros H. rewrite (bool_decide_eq_false_2 _ H). reflexivity. Qed.

(** X9. On the bottom screen, with the player at [x = 100]: a ground box hits
    the player standing on the ground, crawling or not, exactly while its left
    edge is between 50 and 115; an air branch hits an upright player exactly
    while its left edge is between 25 and 115 and the player's [y] is between
    190 and 235, and a crawling player while [y] is between 195 and 220.
    So the branch hits a player in the air and never one on the ground. *)
Theorem bottom_hit_conditions (id count : Q) (order : Shuffle) (x y : Q) :
  let box := scrolledTo x (generateObstacle id count order 0.5 false) in
  let branch := scrolledTo x (generateObstacle id count order 0.9 false) in
  (forall st, checkCollision st grounded [box] true = true <-> 50 < x < 115) /\
  (forall st, st <> crawling ->
     (checkCollision st (Player.mk 100 y) [branch] true = true <->
      25 < x < 115 /\ 190 < y < 235)) /\
  (checkCollision crawling (Player.mk 100 y) [branch] true = true <->
   25 < x < 115 /\ 195 < y < 220).
Proof.
  cbv zeta. split; [|split].
  - intros st. rewrite checkCollision_single.
    unfold overlaps, playerLeft, playerRight, playerTop, playerBottom,
      obsLeft, obsRight, obsTop, obsBottom, grounded.
    cbn [Player.x Player.y].
    change (Obstacle.x (scrolledTo x _)) with x.
    change (Obstacle.width (scrolledTo x _)) with (35 : Q).
    change (Obstacle.y (scrolledTo x _))
      with (GAME_HEIGHT - GROUND_HEIGHT - 40).
    change (Obstacle.height (scrolledTo x _)) with (40 : Q).
    destruct (true && bool_decide (st = crawling));
      rewrite groundY_value, ?PLAYER_SIZE_half, ?PLAYER_SIZE_third;
      unfold GAME_HEIGHT, GROUND_HEIGHT; split; intros; repeat split; lra.
  - intros st Hst. rewrite checkCollision_single.
    unfold overlaps, playerLeft, playerRight, playerTop, playerBottom,
      obsLeft, obsRight, obsTop, obsBottom.
    rewrite (not_crawling st Hst).
    cbn [Player.x Player.y].
    change (Obstacle.x (scrolledTo x _)) with x.
    change (Obstacle.width (scrolledTo x _)) with (60 : Q).
    change (Obstacle.y (scrolledTo x _))
      with (GAME_HEIGHT - GROUND_HEIGHT - 45).
    change (Obstacle.height (scrolledTo x _)) with (15 : Q).
    rewrite ?PLAYER_SIZE_half.
    unfold GAME_HEIGHT, GROUND_HEIGHT; split; intros; repeat split; lra.
  - rewrite checkCollision_single.
    unfold overlaps, playerLeft, playerRight, playerTop, playerBottom,
      obsLeft, obsRight, obsTop, obsBottom.
    change (true && bool_decide (crawling = crawling)) with true.
    cbn [Player.x Player.y].
    change (Obstacle.x (scrolledTo x _)) with x.
    change (Obstacle.width (scrolledTo x _)) with (60 : Q).
    change (Obstacle.y (scrolledTo x _))
      with (GAME_HEIGHT - GROUND_HEIGHT - 45).
    change (Obstacle.height (scrolledTo x _)) with (15 : Q).
    rewrite ?PLAYER_SIZE_half, ?PLAYER_SIZE_third.
    unfold GAME_HEIGHT, GROUND_HEIGHT; split; intros; repeat split; lra.
Qed.

Lemma bottom_hit_conditions_witness :
  checkCollision jumping (Player.mk 100 200)
    [scrolledTo 100 (generateObstacle 0 0 inOrder 0.9 false)] true = true <->
  25 < 100 < 115 /\ 190 < 200 < 235.
Proof.
  apply (proj1 (proj2 (bottom_hit_conditions 0 0 inOrder 100 200))).
  discriminate.
Defined.

Lemma LANE_WIDTH_half : LANE_WIDTH / 2 == 48.
Proof. reflexivity. Qed.

Lemma TOP_PLAYER_Y_value : TOP_PLAYER_Y == 260.
Proof. reflexivity. Qed.

(** X10. On the top screen an obstacle hits the player exactly when it is in the
    player's lane and its [y] is between 215 and 275: an obstacle in another
    lane never hits, however close. *)
Theorem top_hit_needs_same_lane (st : BottomPlayerState) (id y : Q)
    (lane playerLane : Z) :
  checkCollision st (Player.mk (laneCenter playerLane) TOP_PLAYER_Y)
    [descendedTo y (topObstacle id lane)] false = true <->
  lane = playerLane /\ 215 < y < 275.
Proof.
  rewrite checkCollision_single.
  unfold overlaps, playerLeft, playerRight, playerTop, playerBottom,
    obsLeft, obsRight, obsTop, obsBottom, laneCenter.
  cbn [andb Player.x Player.y].
  change (Obstacle.x (descendedTo y (topObstacle id lane)))
    with (ROAD_OFFSET + inject_Z lane * LANE_WIDTH + LANE_WIDTH * 0.1).
  change (Obstacle.width (descendedTo y (topObstacle id lane)))
    with (LANE_WIDTH * 0.8).
  change (Obstacle.y (descendedTo y (topObstacle id lane))) with y.
  change (Obstacle.height (descendedTo y (topObstacle id lane))) with (30 : Q).
  rewrite PLAYER_SIZE_half, LANE_WIDTH_half, TOP_PLAYER_Y_value,
    !LANE_WIDTH_value.
  split.
  - intros (H1 & H2 & H3 & H4). split; [|lra].
    destruct (Z.lt_trichotomy lane playerLane) as [Hlt|[Heq|Hgt]];
      [exfalso|exact Heq|exfalso].
    + assert (inject_Z lane + 1 <= inject_Z playerLane) as Hq.
      { change 1 with (inject_Z 1). rewrite <- inject_Z_plus, <- Zle_Qle. lia. }
      lra.
    + assert (inject_Z playerLane + 1 <= inject_Z lane) as Hq.
      { change 1 with (inject_Z 1). rewrite <- inject_Z_plus, <- Zle_Qle. lia. }
      lra.
  - intros (-> & H). repeat split; lra.
Qed.

(** ** The speeds (lines 318-321) *)

Lemma Qmin_case (a b : Q) :
  (a <= b /\ Qmin a b == a) \/ (b <= a /\ Qmin a b == b).
Proof.
  destruct (Q.min_spec a b) as [[H1 H2]|[H1 H2]]; [left|right]; split; auto.
  apply Qlt_le_weak, H1.
Qed.

Lemma speeds_gameLoop (c : Chance) (s : App) :
  topScreenSpeed (gameLoop c s) = Qmin (topScreenSpeed s + 0.0008) 4 /\
  bottomScreenSpeed (gameLoop c s) = Qmin (bottomScreenSpeed s + 0.0015) 6 /\
  gameSpeed (gameLoop c s) = Qmin (gameSpeed s + 0.001) 5.
Proof.
  unfold gameLoop, spawnTop, spawnBottom. branches; repeat split.
Qed.

Lemma speedsInRange_gameLoop (c : Chance) (s : App) :
  speedsInRange s -> speedsInRange (gameLoop c s).
Proof.
  unfold speedsInRange. intros (Ht & Hb & Hg).
  destruct (speeds_gameLoop c s) as (Et & Eb & Eg). rewrite Et, Eb, Eg.
  destruct (Qmin_case (topScreenSpeed s + 0.0008) 4) as [[? E1]|[? E1]];
    destruct (Qmin_case (bottomScreenSpeed s + 0.0015) 6) as [[? E2]|[? E2]];
    destruct (Qmin_case (gameSpeed s + 0.001) 5) as [[? E3]|[? E3]];
    rewrite E1, E2, E3; repeat split; lra.
Qed.

Lemma speedsInRange_dispatch (s : App) (ev : Event) :
  speedsInRange s -> speedsInRange (dispatch ev s).
Proof.
  intros H. destruct ev; cbn [dispatch].
  - rewrite handleKeyDown_idle. branches; exact H.
  - exact H.
  - destruct (bool_decide (gameState s = playing)); [|exact H].
    unfold updatePlayers, updateBottomPlayer, moveLeft, moveRight.
    branches; exact H.
  - unfold jumpPhysics. branches; exact H.
  - destruct (bool_decide (gameState s = playing)); [|exact H].
    apply speedsInRange_gameLoop, H.
  - unfold speedsInRange. cbn. repeat split; lra.
  - exact H.
  - unfold speedsInRange. cbn. repeat split; lra.
  - unfold runTimeouts. branches; exact H.
  - exact H.
Qed.

Lemma speedsInRange_collisionEffect (s : App) :
  speedsInRange s -> speedsInRange (collisionEffect s).
Proof.
  intros H. unfold collisionEffect. branches; exact H.
Qed.

Lemma speedsInRange_run (evs : list Event) (saved : option Z) (now : Z) :
  speedsInRange (run evs (mount saved now)).
Proof.
  apply run_invariant.
  - intros s ev H. apply speedsInRange_collisionEffect, speedsInRange_dispatch, H.
  - unfold speedsInRange. cbn. repeat split; lra.
Qed.

(** X11. In every session the top speed stays within [1.5, 4], the bottom speed
    within [2, 6] and the base speed within [2, 5]; a game-loop tick lowers
    none of them. *)
Theorem speeds_stay_in_range :
  (forall evs saved now, speedsInRange (run evs (mount saved now))) /\
  (forall c s, speedsInRange s ->
     topScreenSpeed s <= topScreenSpeed (gameLoop c s) /\
     bottomScreenSpeed s <= bottomScreenSpeed (gameLoop c s) /\
     gameSpeed s <= gameSpeed (gameLoop c s)).
Proof.
  split; [apply speedsInRange_run|].
  intros c s (Ht & Hb & Hg).
  destruct (speeds_gameLoop c s) as (Et & Eb & Eg). rewrite Et, Eb, Eg.
  destruct (Qmin_case (topScreenSpeed s + 0.0008) 4) as [[? E1]|[? E1]];
    destruct (Qmin_case (bottomScreenSpeed s + 0.0015) 6) as [[? E2]|[? E2]];
    destruct (Qmin_case (gameSpeed s + 0.001) 5) as [[? E3]|[? E3]];
    rewrite E1, E2, E3; repeat split; lra.
Qed.

Lemma speeds_stay_in_range_witness :
  speedsInRange
    (run [ClickStart; GameLoopTick quiet; GameLoopTick quiet] (mount None 0)).
Proof. apply (proj1 speeds_stay_in_range). Defined.

Section Binary64Speeds.
Import PrimFloat.

Lemma binary64_capsFrom (top bottom base k n : nat) :
  Binary64.capsFrom top bottom base k n (Binary64.loops n) = true ->
  forall i, (i <= k)%nat ->
    Binary64.capsAt top bottom base (n + i) (Binary64.loops (n + i)) = true.
Proof.
  revert n. induction k as [|k IH]; intros n H i Hi;
    cbn [Binary64.capsFrom] in H; apply andb_true_iff in H; destruct H as [H0 H].
  - replace (n + i)%nat with n by lia. exact H0.
  - destruct i as [|i]; [rewrite Nat.add_0_r; exact H0|].
    replace (n + S i)%nat with (S n + i)%nat by lia.
    apply IH; [exact H|lia].
Qed.

Lemma binary64_capped (n : nat) :
  Binary64.loops (3126 + n) = Binary64.mkSpeeds 4%float 6%float 5%float.
Proof.
  induction n as [|n IH].
  - vm_compute. reflexivity.
  - rewrite Nat.add_succ_r. cbn [Binary64.loops]. rewrite IH.
    vm_compute. reflexivity.
Qed.

Lemma binary64_capsAt (n : nat) :
  Binary64.capsAt 3126 2667 3000 n (Binary64.loops n) = true.
Proof.
  destruct (Nat.le_gt_cases n 3126) as [H|H].
  - apply (binary64_capsFrom 3126 2667 3000 3126 0); [|exact H].
    vm_compute. reflexivity.
  - replace n with (3126 + (n - 3126))%nat by lia.
    rewrite binary64_capped. unfold Binary64.capsAt.
    rewrite !(proj2 (Nat.ltb_ge _ _)) by lia.
    vm_compute. reflexivity.
Qed.

(** X12. On binary64 numbers, [n] game-loop ticks into a game
    [topScreenSpeed] is below 4 while [n < 3126] and is 4 from then on,
    [bottomScreenSpeed] is below 6 while [n < 2667] and is 6 from then on,
    and [gameSpeed] is below 5 while [n < 3000] and is 5 from then on. *)
Theorem binary64_speeds_reach_their_caps (n : nat) :
  let v := Binary64.loops n in
  ((n < 3126)%nat ->
   (Binary64.topScreenSpeed v <? 4)%float = true) /\
  ((3126 <= n)%nat ->
   (Binary64.topScreenSpeed v =? 4)%float = true) /\
  ((n < 2667)%nat ->
   (Binary64.bottomScreenSpeed v <? 6)%float = true) /\
  ((2667 <= n)%nat ->
   (Binary64.bottomScreenSpeed v =? 6)%float = true) /\
  ((n < 3000)%nat ->
   (Binary64.gameSpeed v <? 5)%float = true) /\
  ((3000 <= n)%nat ->
   (Binary64.gameSpeed v =? 5)%float = true).
Proof.
  cbv zeta. pose proof (binary64_capsAt n) as H.
  unfold Binary64.capsAt in H.
  apply andb_true_iff in H. destruct H as [H Hg].
  apply andb_true_iff in H. destruct H as [Ht Hb].
  revert Ht Hb Hg.
  destruct (Nat.ltb_spec n 3126), (Nat.ltb_spec n 2667), (Nat.ltb_spec n 3000);
    intros Ht Hb Hg; repeat split; intros; first [assumption | lia].
Qed.

End Binary64Speeds.

(** ** Obstacle motion (lines 262-273) *)

Lemma moveBottomObstacles_one (speed : Q) (obs : Obstacle.t) :
  moveBottomObstacles speed [obs] =
  if Obstacle.x obs - speed >? - Obstacle.width obs
  then [scrolledTo (Obstacle.x obs - speed) obs] else [].
Proof. reflexivity. Qed.

Lemma moveTopObstacles_one (speed : Q) (obs : Obstacle.t) :
  moveTopObstacles speed [obs] =
  if Obstacle.y obs + speed <? GAME_HEIGHT + Obstacle.height obs
  then [descendedTo (Obstacle.y obs + speed) obs] else [].
Proof. reflexivity. Qed.

Lemma scrollBottom_nil (speeds : list Q) : scrollBottom speeds [] = [].
Proof. induction speeds as [|v speeds IH]; [reflexivity|exact IH]. Qed.

Lemma scrollTop_nil (speeds : list Q) : scrollTop speeds [] = [].
Proof. induction speeds as [|v speeds IH]; [reflexivity|exact IH]. Qed.

Lemma distance_nonneg (speeds : list Q) :
  Forall (Qle 0) speeds -> 0 <= distance speeds.
Proof.
  induction 1 as [|v speeds Hv _ IH]; cbn [distance fold_right].
  - lra.
  - unfold distance in IH. lra.
Qed.

Lemma distance_repeat (speed : Q) (n : nat) :
  distance (repeat speed n) == inject_Z (Z.of_nat n) * speed.
Proof.
  induction n as [|n IH].
  - cbn. ring.
  - cbn [repeat distance fold_right]. unfold distance in IH. rewrite IH.
    rewrite Nat2Z.inj_succ. unfold Z.succ. rewrite inject_Z_plus.
    change (inject_Z 1) with 1. ring.
Qed.

(** In the embedding's exact arithmetic, a bottom obstacle moved at speeds
    that are not negative is in the stream while its right edge, at its
    abscissa less the distance covered, is right of the screen's left
    edge. *)
Lemma scrollBottom_single (speeds : list Q) (obs : Obstacle.t) :
  Forall (Qle 0) speeds ->
  (- Obstacle.width obs < Obstacle.x obs - distance speeds ->
   exists o, scrollBottom speeds [obs] = [o] /\
             Obstacle.x o == Obstacle.x obs - distance speeds /\
             scrolledTo (Obstacle.x o) obs = o) /\
  (speeds <> [] ->
   Obstacle.x obs - distance speeds <= - Obstacle.width obs ->
   scrollBottom speeds [obs] = []).
Proof.
  intros H. revert obs. induction H as [|v speeds Hv Hs IH]; intros obs.
  - split.
    + intros _. exists obs. cbn. repeat split; [ring|destruct obs; reflexivity].
    + intros Hn. contradiction Hn. reflexivity.
  - pose proof (distance_nonneg speeds Hs) as Hd.
    cbn [scrollBottom distance fold_right]. fold (distance speeds).
    rewrite moveBottomObstacles_one.
    destruct (Obstacle.x obs - v >? - Obstacle.width obs) eqn:E.
    + apply Qltb_lt in E.
      destruct (IH (scrolledTo (Obstacle.x obs - v) obs)) as [IH1 IH2].
      cbn [scrolledTo Obstacle.x Obstacle.width] in IH1, IH2.
      split.
      * intros Hx. destruct IH1 as (o & E1 & E2 & E3); [lra|].
        exists o. split; [exact E1|]. split; [rewrite E2; ring|exact E3].
      * intros _ Hx. destruct speeds as [|w speeds].
        -- cbn in Hx. lra.
        -- apply IH2; [discriminate|lra].
    + apply Qltb_ge in E. split.
      * intros Hx. lra.
      * intros _ _. apply scrollBottom_nil.
Qed.

Lemma Qceiling_le_iff (q : Q) (n : Z) :
  (Qceiling q <= n)%Z <-> q <= inject_Z n.
Proof.
  split; intros H.
  - apply Qle_trans with (inject_Z (Qceiling q)); [apply Qle_ceiling|].
    rewrite <- Zle_Qle. exact H.
  - rewrite <- (Qceiling_Z n). apply Qceiling_resp_le, H.
Qed.

Lemma Qdiv_le_iff (a b c : Q) : 0 < c -> (a / c <= b <-> a <= b * c).
Proof.
  intros Hc. split; intros H.
  - assert (a == a / c * c) as E by (field; lra).
    rewrite E. apply Qmult_le_compat_r; [exact H|lra].
  - apply Qle_shift_div_r; assumption.
Qed.

(** X14. At a constant positive speed a bottom obstacle that is in the stream
    leaves it after exactly [ceil ((x + width) / speed)] moves: it is gone
    after [n] moves if and only if [n] is at least that number. *)
Theorem bottom_obstacle_lifetime (speed : Q) (n : nat) (obs : Obstacle.t) :
  0 < speed ->
  - Obstacle.width obs < Obstacle.x obs ->
  (scrollBottom (repeat speed n) [obs] = [] <->
   (Qceiling ((Obstacle.x obs + Obstacle.width obs) / speed) <= Z.of_nat n)%Z).
Proof.
  intros Hv Hx.
  assert (Forall (Qle 0) (repeat speed n)) as Hs.
  { clear Hx. induction n as [|n IH]; cbn [repeat]; constructor; [lra|exact IH]. }
  destruct (scrollBottom_single (repeat speed n) obs Hs) as [Hin Hout].
  rewrite Qceiling_le_iff, (Qdiv_le_iff _ _ _ Hv).
  pose proof (distance_repeat speed n) as Hd.
  split.
  - intros E.
    destruct (Qlt_le_dec (- Obstacle.width obs)
                (Obstacle.x obs - distance (repeat speed n))) as [Hlt|Hle].
    + destruct (Hin Hlt) as (o & Eo & _). rewrite Eo in E. discriminate E.
    + rewrite Hd in Hle. lra.
  - intros Hle. apply Hout.
    + destruct n as [|n]; [|discriminate].
      change (inject_Z (Z.of_nat 0)) with 0 in Hle. lra.
    + rewrite Hd. lra.
Qed.

Lemma bottom_obstacle_lifetime_witness :
  let obs := generateObstacle 0 0 inOrder 0.5 false in
  0 < 6 /\ - Obstacle.width obs < Obstacle.x obs /\
  (scrollBottom (repeat 6 140) [obs] = [] <->
   (Qceiling ((Obstacle.x obs + Obstacle.width obs) / 6) <= Z.of_nat 140)%Z).
Proof.
  cbv zeta.
  assert (0 < 6) as H1 by reflexivity.
  assert (- Obstacle.width (generateObstacle 0 0 inOrder 0.5 false)
          < Obstacle.x (generateObstacle 0 0 inOrder 0.5 false)) as H2
    by reflexivity.
  split; [exact H1|]. split; [exact H2|].
  exact (bottom_obstacle_lifetime 6 140 _ H1 H2).
Defined.

(** In the embedding's exact arithmetic, a top obstacle moved at speeds that
    are not negative is in the stream while its top edge, at its ordinate
    plus the distance covered, is above [GAME_HEIGHT + height]. *)
Lemma scrollTop_single (speeds : list Q) (obs : Obstacle.t) :
  Forall (Qle 0) speeds ->
  (Obstacle.y obs + distance speeds < GAME_HEIGHT + Obstacle.height obs ->
   exists o, scrollTop speeds [obs] = [o] /\
             Obstacle.y o == Obstacle.y obs + distance speeds /\
             descendedTo (Obstacle.y o) obs = o) /\
  (speeds <> [] ->
   GAME_HEIGHT + Obstacle.height obs <= Obstacle.y obs + distance speeds ->
   scrollTop speeds [obs] = []).
Proof.
  intros H. revert obs. induction H as [|v speeds Hv Hs IH]; intros obs.
  - split.
    + intros _. exists obs. cbn. repeat split; [ring|destruct obs; reflexivity].
    + intros Hn. contradiction Hn. reflexivity.
  - pose proof (distance_nonneg speeds Hs) as Hd.
    cbn [scrollTop distance fold_right]. fold (distance speeds).
    rewrite moveTopObstacles_one.
    destruct (Obstacle.y obs + v <? GAME_HEIGHT + Obstacle.height obs) eqn:E.
    + apply Qltb_lt in E.
      destruct (IH (descendedTo (Obstacle.y obs + v) obs)) as [IH1 IH2].
      cbn [descendedTo Obstacle.y Obstacle.height] in IH1, IH2.
      split.
      * intros Hy. destruct IH1 as (o & E1 & E2 & E3); [lra|].
        exists o. split; [exact E1|]. split; [rewrite E2; ring|exact E3].
      * intros _ Hy. destruct speeds as [|w speeds].
        -- cbn in Hy. lra.
        -- apply IH2; [discriminate|lra].
    + apply Qltb_ge in E. split.
      * intros Hy. lra.
      * intros _ _. apply scrollTop_nil.
Qed.

(** X15. At a constant positive speed a top obstacle that is in the stream
    leaves it after exactly [ceil ((GAME_HEIGHT + height - y) / speed)]
    moves: it is gone after [n] moves if and only if [n] is at least that
    number. *)
Theorem top_obstacle_lifetime (speed : Q) (n : nat) (obs : Obstacle.t) :
  0 < speed ->
  Obstacle.y obs < GAME_HEIGHT + Obstacle.height obs ->
  (scrollTop (repeat speed n) [obs] = [] <->
   (Qceiling ((GAME_HEIGHT + Obstacle.height obs - Obstacle.y obs) / speed)
    <= Z.of_nat n)%Z).
Proof.
  intros Hv Hy.
  assert (Forall (Qle 0) (repeat speed n)) as Hs.
  { clear Hy. induction n as [|n IH]; cbn [repeat]; constructor; [lra|exact IH]. }
  destruct (scrollTop_single (repeat speed n) obs Hs) as [Hin Hout].
  rewrite Qceiling_le_iff, (Qdiv_le_iff _ _ _ Hv).
  pose proof (distance_repeat speed n) as Hd.
  split.
  - intros E.
    destruct (Qlt_le_dec (Obstacle.y obs + distance (repeat speed n))
                (GAME_HEIGHT + Obstacle.height obs)) as [Hlt|Hle].
    + destruct (Hin Hlt) as (o & Eo & _). rewrite Eo in E. discriminate E.
    + rewrite Hd in Hle. lra.
  - intros Hle. apply Hout.
    + destruct n as [|n]; [|discriminate].
      change (inject_Z (Z.of_nat 0)) with 0 in Hle. lra.
    + rewrite Hd. lra.
Qed.

(** An obstacle of a batch at the capped speed 4: gone after 90 moves. *)
Lemma top_obstacle_lifetime_witness :
  let obs := topObstacle 0 3 in
  0 < 4 /\ Obstacle.y obs < GAME_HEIGHT + Obstacle.height obs /\
  (scrollTop (repeat 4 90) [obs] = [] <->
   (Qceiling ((GAME_HEIGHT + Obstacle.height obs - Obstacle.y obs) / 4)
    <= Z.of_nat 90)%Z).
Proof.
  cbv zeta.
  assert (0 < 4) as H1 by reflexivity.
  assert (Obstacle.y (topObstacle 0 3)
          < GAME_HEIGHT + Obstacle.height (topObstacle 0 3)) as H2
    by reflexivity.
  split; [exact H1|]. split; [exact H2|].
  exact (top_obstacle_lifetime 4 90 _ H1 H2).
Defined.

(** ** The crawling hitbox (lines 339-345) *)

(** X16. The crawling hitbox lies inside the upright one: whatever hits the
    crawling bottom player also hits it in any other state at the same
    place. Off the bottom screen the state plays no part. *)
Theorem crawling_shrinks_the_hitbox
    (st : BottomPlayerState) (player : Player.t) (obstacles : list Obstacle.t) :
  (checkCollision crawling player obstacles true = true ->
   checkCollision st player obstacles true = true) /\
  checkCollision st player obstacles false
  = checkCollision running player obstacles false.
Proof.
  split; [|reflexivity].
  unfold checkCollision. rewrite !existsb_exists.
  intros (obs & Hin & H). exists obs. split; [exact Hin|].
  apply overlap_test. apply overlap_test in H.
  destruct H as (H1 & H2 & H3 & H4). unfold overlaps.
  split; [exact H1|]. split; [exact H2|].
  unfold playerTop, playerBottom in *.
  cbn [andb] in *. rewrite bool_decide_eq_true_2 in H3, H4 by reflexivity.
  rewrite PLAYER_SIZE_third in H3.
  destruct (bool_decide (st = crawling)).
  - rewrite PLAYER_SIZE_third. split; [exact H3|exact H4].
  - rewrite PLAYER_SIZE_half. split; lra.
Qed.

(** ** What the streams hold (lines 191-254, 262-313) *)

Lemma bottomObstacles_gameLoop (c : Chance) (s : App) :
  bottomObstacles (gameLoop c s) =
  moveBottomObstacles (bottomScreenSpeed s) (bottomObstacles s) ++
  (if bottomSpawns c (lastBottomObstacleX s)
   then [generateObstacle (bottomId c) (topCount c) (topOrder c)
           (bottomRand c) false]
   else []).
Proof.
  unfold gameLoop, spawnTop, spawnBottom, bottomSpawns. cbv zeta.
  cbn [bottomObstacles lastBottomObstacleX setBottomObstacles setTopObstacles].
  destruct (bottomGate c <? 0.015);
    [destruct (GAME_WIDTH - lastBottomObstacleX s >? MIN_OBSTACLE_DISTANCE)|];
    cbn [andb]; branches; cbn; rewrite ?app_nil_r; reflexivity.
Qed.

Lemma generateObstacle_ok (id count : Q) (order : Shuffle) (rand : Q) :
  bottomObstacleOk (generateObstacle id count order rand false).
Proof.
  unfold generateObstacle, bottomObstacleOk.
  destruct (obstacleType rand); cbn;
    (split; [reflexivity|]);
    (split; [|split; [reflexivity|intros Hc; discriminate Hc]]);
    (left + (right; left) + (right; right)); repeat split; reflexivity.
Qed.

Lemma moveBottomObstacles_ok (speed : Q) (obstacles : list Obstacle.t) :
  0 <= speed ->
  Forall bottomObstacleOk obstacles ->
  Forall bottomObstacleOk (moveBottomObstacles speed obstacles).
Proof.
  intros Hv. unfold moveBottomObstacles.
  induction 1 as [|obs obstacles Hobs _ IH]; cbn [map List.filter];
    [constructor|].
  cbn [Obstacle.x Obstacle.width].
  destruct (Obstacle.x obs - speed >? - Obstacle.width obs) eqn:E; [|exact IH].
  constructor; [|exact IH].
  apply Qltb_lt in E. destruct Hobs as (Hl & Hshape & Hx).
  unfold bottomObstacleOk. cbn. split; [exact Hl|]. split; [exact Hshape|].
  split; [exact E|lra].
Qed.

Lemma moveTopObstacles_ok (speed : Q) (obstacles : list Obstacle.t) :
  0 <= speed ->
  Forall topObstacleOk obstacles ->
  Forall topObstacleOk (moveTopObstacles speed obstacles).
Proof.
  intros Hv. unfold moveTopObstacles.
  induction 1 as [|obs obstacles Hobs _ IH]; cbn [map List.filter];
    [constructor|].
  cbn [Obstacle.y Obstacle.height].
  destruct (Obstacle.y obs + speed <? GAME_HEIGHT + Obstacle.height obs) eqn:E;
    [|exact IH].
  constructor; [|exact IH].
  apply Qltb_lt in E. destruct Hobs as (Ht & Hlane & Hw & Hh & Hy).
  unfold topObstacleOk. cbn. rewrite Hh in *.
  split; [exact Ht|]. split; [exact Hlane|]. split; [exact Hw|].
  split; [reflexivity|]. split; [lra|exact E].
Qed.

Lemma topObstacles_ok (ids : nat -> Q) (lanes : list Z) :
  Forall (fun lane => (0 <= lane <= LANES - 1)%Z) lanes ->
  Forall topObstacleOk (imap (fun i lane => topObstacle (ids i) lane) lanes).
Proof.
  intros H. revert ids.
  induction H as [|lane lanes Hlane _ IH]; intros ids; [constructor|].
  rewrite imap_cons. constructor; [|apply (IH (ids ∘ S))].
  unfold topObstacleOk, topObstacle. cbn.
  split; [reflexivity|]. split.
  - exists lane. split; [exact Hlane|]. split; reflexivity.
  - split; [reflexivity|]. split; [reflexivity|].
    split; [intros Hc; discriminate Hc|reflexivity].
Qed.

Lemma obstacleLanes_on_road (count : Q) (order : Shuffle) :
  Forall (fun lane => (0 <= lane <= LANES - 1)%Z) (obstacleLanes count order).
Proof.
  assert (Forall (fun lane => (0 <= lane <= LANES - 1)%Z)
            (sortRandom order availableLanes)) as H.
  { rewrite (sortRandom_perm order availableLanes), availableLanes_eq.
    unfold LANES. repeat constructor; lia. }
  unfold obstacleLanes, slice0.
  destruct (numObstacles count <? 0)%Z; apply Forall_take, H.
Qed.

Lemma newObstacles_ok (c : Chance) : Forall topObstacleOk (newObstacles c).
Proof. apply topObstacles_ok, obstacleLanes_on_road. Qed.

Lemma streamsOk_gameLoop (c : Chance) (s : App) :
  streamsOk s -> streamsOk (gameLoop c s).
Proof.
  intros (Hv & Hb & Ht). pose proof Hv as (Hvt & Hvb & _).
  split; [apply speedsInRange_gameLoop, Hv|]. split.
  - rewrite bottomObstacles_gameLoop. apply Forall_app. split.
    + apply moveBottomObstacles_ok; [lra|exact Hb].
    + destruct (bottomSpawns c (lastBottomObstacleX s)); [|constructor].
      constructor; [apply generateObstacle_ok|constructor].
  - rewrite topObstacles_gameLoop. apply Forall_app. split.
    + apply moveTopObstacles_ok; [lra|exact Ht].
    + destruct (topSpawns c (clock s) (lastTopObstacleTime s)); [|constructor].
      apply newObstacles_ok.
Qed.

Lemma obstacles_dispatch (s : App) (ev : Event) :
  (forall c, ev <> GameLoopTick c) -> ev <> ClickStart -> ev <> ClickReset ->
  bottomObstacles (dispatch ev s) = bottomObstacles s /\
  topObstacles (dispatch ev s) = topObstacles s.
Proof.
  intros Hg Hs Hr. destruct ev; cbn [dispatch].
  - rewrite handleKeyDown_idle. branches; split; reflexivity.
  - split; reflexivity.
  - destruct (bool_decide (gameState s = playing)); [|split; reflexivity].
    unfold updatePlayers, updateBottomPlayer, moveLeft, moveRight.
    branches; split; reflexivity.
  - unfold jumpPhysics. branches; split; reflexivity.
  - contradiction (Hg c). reflexivity.
  - contradiction Hs. reflexivity.
  - split; reflexivity.
  - contradiction Hr. reflexivity.
  - unfold runTimeouts. branches; split; reflexivity.
  - split; reflexivity.
Qed.

Lemma obstacles_collisionEffect (s : App) :
  bottomObstacles (collisionEffect s) = bottomObstacles s /\
  topObstacles (collisionEffect s) = topObstacles s.
Proof. unfold collisionEffect. branches; split; reflexivity. Qed.

Lemma streamsOk_step (s : App) (ev : Event) :
  streamsOk s -> streamsOk (step s ev).
Proof.
  intros H. unfold step.
  assert (streamsOk (dispatch ev s)) as Hd.
  { assert ((exists c, ev = GameLoopTick c) \/ ev = ClickStart \/
            ev = ClickReset \/
            ((forall c, ev <> GameLoopTick c) /\ ev <> ClickStart /\
             ev <> ClickReset)) as [[c ->]|[->|[->|(Hg & Hs & Hr)]]].
    { destruct ev; try (right; right; right; repeat split; discriminate).
      - left. eexists. reflexivity.
      - right. left. reflexivity.
      - right. right. left. reflexivity. }
    - cbn [dispatch]. destruct (bool_decide (gameState s = playing)); [|exact H].
      apply streamsOk_gameLoop, H.
    - split; [apply speedsInRange_dispatch, H|]. split; constructor.
    - split; [apply speedsInRange_dispatch, H|]. split; constructor.
    - destruct H as (Hv & Hb & Ht).
      destruct (obstacles_dispatch s ev Hg Hs Hr) as [Eb Et].
      split; [apply speedsInRange_dispatch, Hv|]. rewrite Eb, Et.
      split; assumption. }
  destruct Hd as (Hv & Hb & Ht).
  destruct (obstacles_collisionEffect (dispatch ev s)) as [Eb Et].
  split; [apply speedsInRange_collisionEffect, Hv|]. rewrite Eb, Et.
  split; assumption.
Qed.

(** X17. In every session each obstacle of the bottom stream is a pit, a ground
    box or an air branch with the ordinate, width and height its type had
    when it was built, has no lane and lies between the screen's left edge
    (right edge of the obstacle) and [GAME_WIDTH] (left edge); each obstacle
    of the top stream is of type [normal], sits in one of the five lanes at
    that lane's abscissa with the batch's width and height, and has its
    ordinate in [-30, GAME_HEIGHT + 30). The bottom stream never holds an
    [air_box]. *)
Theorem streams_hold_well_formed_obstacles
    (evs : list Event) (saved : option Z) (now : Z) :
  let s := run evs (mount saved now) in
  Forall bottomObstacleOk (bottomObstacles s) /\
  Forall topObstacleOk (topObstacles s) /\
  Forall (fun obs => Obstacle.type obs <> air_box) (bottomObstacles s).
Proof.
  cbv zeta.
  assert (streamsOk (run evs (mount saved now))) as (_ & Hb & Ht).
  { apply run_invariant; [apply streamsOk_step|].
    split; [|split; constructor].
    unfold speedsInRange. cbn. repeat split; lra. }
  split; [exact Hb|]. split; [exact Ht|].
  eapply Forall_impl; [exact Hb|].
  intros obs (_ & [(E & _)|[(E & _)|(E & _)]] & _); rewrite E; discriminate.
Qed.

(** ** Spacing of the bottom stream (lines 277-291) *)

Lemma moveBottomObstacles_app (speed : Q) (l l' : list Obstacle.t) :
  moveBottomObstacles speed (l ++ l') =
  moveBottomObstacles speed l ++ moveBottomObstacles speed l'.
Proof.
  unfold moveBottomObstacles. rewrite map_app. apply List.filter_app.
Qed.

Lemma lastBottomObstacleX_gameLoop (c : Chance) (s : App) :
  lastBottomObstacleX (gameLoop c s) =
  match last (seenBottomObstacles c) with
  | Some lastObstacle => Obstacle.x lastObstacle
  | None =>
      (if bottomSpawns c (lastBottomObstacleX s)
       then GAME_WIDTH else lastBottomObstacleX s) - gameSpeed s
  end.
Proof.
  unfold gameLoop, spawnTop, spawnBottom, bottomSpawns. cbv zeta.
  cbn [bottomObstacles lastBottomObstacleX setBottomObstacles setTopObstacles].
  destruct (last (seenBottomObstacles c)) as [lastObstacle|].
  - branches; reflexivity.
  - destruct (bottomGate c <? 0.015);
      [destruct (GAME_WIDTH - lastBottomObstacleX s >? MIN_OBSTACLE_DISTANCE)|];
      cbn [andb]; branches; reflexivity.
Qed.

Lemma bottomSpawns_true (c : Chance) (lastX : Q) :
  bottomGate c < 0.015 -> lastX < GAME_WIDTH - MIN_OBSTACLE_DISTANCE ->
  bottomSpawns c lastX = true.
Proof.
  intros Hg Hx. unfold bottomSpawns. apply andb_true_iff.
  split; apply Qltb_lt; [exact Hg|]. lra.
Qed.

(** X18. Every tick overwrites [lastBottomObstacleX] with the abscissa of
    the last obstacle of the list its callback saw (lines 288-291), also on
    a tick that has just spawned and set it to [GAME_WIDTH].  So when that
    obstacle and [lastBottomObstacleX] are both more than
    [MIN_OBSTACLE_DISTANCE] left of the screen's right edge, two ticks in a
    row whose gates pass both spawn: the stream then ends with two new
    obstacles, the first one tick of travel, at most 6, left of the second,
    which is at [GAME_WIDTH]. *)
Theorem spawns_on_consecutive_ticks
    (c1 c2 : Chance) (s : App) (lastObstacle : Obstacle.t) :
  last (seenBottomObstacles c1) = Some lastObstacle ->
  Obstacle.x lastObstacle < GAME_WIDTH - MIN_OBSTACLE_DISTANCE ->
  lastBottomObstacleX s < GAME_WIDTH - MIN_OBSTACLE_DISTANCE ->
  bottomGate c1 < 0.015 ->
  bottomGate c2 < 0.015 ->
  0 <= bottomScreenSpeed s ->
  let s1 := gameLoop c1 s in
  let s2 := gameLoop c2 s1 in
  let first := generateObstacle (bottomId c1) (topCount c1) (topOrder c1)
                 (bottomRand c1) false in
  let second := generateObstacle (bottomId c2) (topCount c2) (topOrder c2)
                  (bottomRand c2) false in
  lastBottomObstacleX s1 = Obstacle.x lastObstacle /\
  exists older x,
    bottomObstacles s2 = older ++ [scrolledTo x first; second] /\
    GAME_WIDTH - 6 <= x <= GAME_WIDTH /\
    Obstacle.x second = GAME_WIDTH.
Proof.
  intros Hlast Hx HlastX Hg1 Hg2 Hv0. cbv zeta.
  assert (lastBottomObstacleX (gameLoop c1 s) = Obstacle.x lastObstacle) as E1.
  { rewrite lastBottomObstacleX_gameLoop, Hlast. reflexivity. }
  split; [exact E1|].
  assert (0 <= bottomScreenSpeed (gameLoop c1 s) <= 6) as Hv.
  { rewrite (proj1 (proj2 (speeds_gameLoop c1 s))).
    destruct (Qmin_case (bottomScreenSpeed s + 0.0015) 6) as [[? E]|[? E]];
      rewrite E; lra. }
  exists (moveBottomObstacles (bottomScreenSpeed (gameLoop c1 s))
            (moveBottomObstacles (bottomScreenSpeed s) (bottomObstacles s))).
  exists (GAME_WIDTH - bottomScreenSpeed (gameLoop c1 s)).
  assert (forall c, Obstacle.x (generateObstacle (bottomId c) (topCount c)
                                  (topOrder c) (bottomRand c) false)
                    = GAME_WIDTH) as Ex.
  { intros c. unfold generateObstacle.
    destruct (obstacleType (bottomRand c)); reflexivity. }
  split; [|split; [unfold GAME_WIDTH; lra|apply Ex]].
  rewrite (bottomObstacles_gameLoop c2), E1, (bottomSpawns_true c2 _ Hg2 Hx).
  rewrite (bottomObstacles_gameLoop c1), (bottomSpawns_true c1 _ Hg1 HlastX).
  rewrite moveBottomObstacles_app, <- app_assoc. f_equal.
  rewrite moveBottomObstacles_one, (Ex c1).
  set (v := bottomScreenSpeed (gameLoop c1 s)) in *.
  set (first := generateObstacle _ _ _ (bottomRand c1) false).
  pose proof (generateObstacle_ok (bottomId c1) (topCount c1) (topOrder c1)
                (bottomRand c1)) as (_ & Hshape & _).
  fold first in Hshape.
  assert ((GAME_WIDTH - v >? - Obstacle.width first) = true) as ->.
  { apply Qltb_lt. unfold GAME_WIDTH.
    destruct Hshape as [(_ & _ & W & _)|[(_ & _ & W & _)|(_ & _ & W & _)]];
      rewrite W; lra. }
  reflexivity.
Qed.

(** The last obstacle at 600, seen by the callback, and
    [lastBottomObstacleX] at 602, a tick behind it. *)
Lemma spawns_on_consecutive_ticks_witness :
  let box := generateObstacle 0 0 inOrder 0.5 false in
  let c := mkChance 0.01 0 0.5 0.5 0 inOrder (fun _ => 0)
             [scrolledTo 600 box] in
  let s := setLastBottomObstacleX 602
             (setBottomObstacles [scrolledTo 600 box]
                (startGame (mount None 0))) in
  exists older x,
    bottomObstacles (gameLoop c (gameLoop c s)) =
    older ++ [scrolledTo x box; box] /\
    GAME_WIDTH - 6 <= x <= GAME_WIDTH.
Proof.
  cbv zeta.
  destruct (spawns_on_consecutive_ticks
              (mkChance 0.01 0 0.5 0.5 0 inOrder (fun _ => 0)
                 [scrolledTo 600 (generateObstacle 0 0 inOrder 0.5 false)])
              (mkChance 0.01 0 0.5 0.5 0 inOrder (fun _ => 0)
                 [scrolledTo 600 (generateObstacle 0 0 inOrder 0.5 false)])
              (setLastBottomObstacleX 602
                 (setBottomObstacles
                    [scrolledTo 600 (generateObstacle 0 0 inOrder 0.5 false)]
                    (startGame (mount None 0))))
              (scrolledTo 600 (generateObstacle 0 0 inOrder 0.5 false)))
    as (_ & older & x & E & Hx & _);
    try reflexivity; try (intros Hc; discriminate Hc).
  exists older, x. split; [exact E|exact Hx].
Defined.
